(** * Push.js: agent dispatch and notification lifecycle

    A shallow embedding of [src/classes/Push.js] and of the Service-Worker
    agent (MobileChromeAgent), followed by the properties of the
    creation, closure and registry operations.

    JavaScript objects keyed by integers are association lists kept in
    ascending key order (the order [for ... in] enumerates them);
    exceptions and the mutable fields of the [Push] instance are threaded
    through a state-and-exception monad; calls that leave the class
    (agent probes, agent calls, the permission gate, the promise's
    [resolve] and [reject]) are recorded in a log so that their order can
    be stated. *)

From Stdlib Require Import List Ascii String Arith Bool Lia Sorted.
Import ListNotations.
Local Open Scope string_scope.
Local Open Scope list_scope.

(** ** JavaScript objects with integer keys *)

Module JSObject.
Section Obj.
Context {V : Type}.


(** [o[k]], with [None] standing for a key that is not an own property. *)
Fixpoint get (k : nat) (o : list (nat * V)) : option V :=
  match o with
  | [] => None
  | (k', v) :: o' => if Nat.eqb k k' then Some v else get k o'
  end.

(** [o.hasOwnProperty(k)] *)
Fixpoint hasOwnProperty (k : nat) (o : list (nat * V)) : bool :=
  match o with
  | [] => false
  | (k', _) :: o' => if Nat.eqb k k' then true else hasOwnProperty k o'
  end.

(** [o[k] = v]: an existing key is overwritten in place, a new integer
    key takes its place in ascending order. *)
Fixpoint set (k : nat) (v : V) (o : list (nat * V)) : list (nat * V) :=
  match o with
  | [] => [(k, v)]
  | (k', v') :: o' =>
      if Nat.eqb k k' then (k, v) :: o'
      else if Nat.ltb k k' then (k, v) :: (k', v') :: o'
      else (k', v') :: set k v o'
  end.

(** [delete o[k]] *)
Fixpoint delete (k : nat) (o : list (nat * V)) : list (nat * V) :=
  match o with
  | [] => []
  | (k', v') :: o' =>
      if Nat.eqb k k' then delete k o' else (k', v') :: delete k o'
  end.

(** The keys in the order [for (key in o)] visits them. *)
Definition keys (o : list (nat * V)) : list nat := map fst o.

(** Every key is below [n]. *)
Definition below (n : nat) (o : list (nat * V)) : Prop :=
  Forall (fun kv => fst kv < n) o.
End Obj.
End JSObject.

(** ** Values *)

Inductive AgentKind := Desktop | Chrome | Firefox | MS | WebKit.

(** A native notification record: an object identity and its [tag]. *)
Record Notification := { nid : nat; tag : string }.

Inductive JSValue := JNull | JUndefined | JObj (n : Notification).

(** What a [throw] or a [reject] carries. *)
Inductive Thrown :=
| ErrorObj (msg : string)       (* new Error(msg) *)
| TypeErrorObj (what : string)  (* raised by the engine *)
| StringValue (s : string).     (* reject("...") *)

(** A function value; only its identity matters here. *)
Record Callback := { cb_name : string }.

(** The options of one [create] call that Push.js reads. *)
Record Options := {
  timeout : option nat;
  onShow : option Callback;
  onError : option Callback;
  onClick : option Callback;
  onClose : option Callback;
  link : option string
}.

(** [{}] *)
Definition noOptions : Options :=
  {| timeout := None; onShow := None; onError := None; onClick := None;
     onClose := None; link := None |}.

(** The title argument of [create]: a string or any other value. *)
Inductive Title := TitleString (s : string) | TitleOther.

(** What the creation future is resolved with: the wrapper built by
    [_prepareNotification] (it closes over the id) or the object [{}]. *)
Inductive Handle := Wrapper (id : nat) | EmptyHandle.

(** What a listener attached to a native record does when it fires. *)
Inductive Listener :=
| UserListener (c : Callback)             (* options.onShow / onError / onClick *)
| OnCloseListener (id : nat)
    (c : option Callback).                (* () => onClose(id) *)

(** The progress of one MobileChromeAgent.create call. *)
Inductive SWStage := AwaitReady | AwaitShown | AwaitList.

Record SWRequest := {
  sw_promise : nat;    (* the future whose [resolve] the callback holds *)
  sw_id : nat;         (* the id argument: [_currentId] at dispatch *)
  sw_title : string;
  sw_options : Options;
  sw_path : string;    (* config().serviceWorker *)
  sw_stage : SWStage
}.

Record PermRequest := {
  pr_promise : nat;
  pr_title : string;
  pr_options : option Options
}.

(** Calls that leave the class, in the order they are made. *)
Inductive Event :=
| EvIsSupported (a : AgentKind)
| EvAgentCreate (a : AgentKind) (title : string)
| EvAgentClose (a : AgentKind) (v : JSValue)
| EvPermissionHas
| EvPermissionRequest (promise : nat)
| EvResolve (promise : nat) (h : Handle)
| EvReject (promise : nat) (e : Thrown)
| EvSetTimeout (id : nat) (delay : nat)
| EvSWRegister (path : string)
| EvSWShowNotification (title : string) (id : nat)
| EvSWGetNotifications
| EvSWPostMessage
| EvSWAddMessageListener
| EvUserCallback (c : Callback)
| EvUncaught (e : Thrown).

(** ** The host environment *)

Inductive AgentResult := Returns (v : JSValue) | Throws (e : Thrown).

(** The strings of the Messages module, which Push.js imports. *)
Record Messages := {
  unknown_interface : string;
  sw_notification_error : string;
  sw_registration_error : string
}.

(** What the window offers during one synchronous run of the code: the
    answer of each agent's [isSupported], what the [create] of each
    synchronous agent does, and the permission state. *)
Record Env := {
  isSupported : AgentKind -> bool;
  agentCreate : AgentKind -> string -> Options -> AgentResult;
  permissionHas : bool;
  messages : Messages
}.

(** ** The state *)

Record World := {
  _currentId : nat;                         (* this._currentId *)
  _notifications : list (nat * JSValue);    (* this._notifications *)
  _configuration : string;                  (* this._configuration.serviceWorker *)
  listeners : list (Notification * string * Listener);
  timers : list (nat * nat);                (* (id, delay) of a pending setTimeout *)
  swRequests : list SWRequest;
  swMessageListeners : nat;
  permRequests : list PermRequest;
  nextPromise : nat;
  log : list Event
}.

(** The state after the constructor. *)
Definition newPush : World :=
  {| _currentId := 0; _notifications := [];
     _configuration := "./serviceWorker.js";
     listeners := []; timers := []; swRequests := [];
     swMessageListeners := 0; permRequests := []; nextPromise := 0;
     log := [] |}.

Definition set_currentId (n : nat) (w : World) : World :=
  {| _currentId := n; _notifications := _notifications w;
     _configuration := _configuration w; listeners := listeners w;
     timers := timers w; swRequests := swRequests w;
     swMessageListeners := swMessageListeners w;
     permRequests := permRequests w; nextPromise := nextPromise w;
     log := log w |}.

Definition set_notifications (o : list (nat * JSValue)) (w : World) : World :=
  {| _currentId := _currentId w; _notifications := o;
     _configuration := _configuration w; listeners := listeners w;
     timers := timers w; swRequests := swRequests w;
     swMessageListeners := swMessageListeners w;
     permRequests := permRequests w; nextPromise := nextPromise w;
     log := log w |}.

Definition set_listeners (l : list (Notification * string * Listener)) (w : World) : World :=
  {| _currentId := _currentId w; _notifications := _notifications w;
     _configuration := _configuration w; listeners := l;
     timers := timers w; swRequests := swRequests w;
     swMessageListeners := swMessageListeners w;
     permRequests := permRequests w; nextPromise := nextPromise w;
     log := log w |}.

Definition set_timers (l : list (nat * nat)) (w : World) : World :=
  {| _currentId := _currentId w; _notifications := _notifications w;
     _configuration := _configuration w; listeners := listeners w;
     timers := l; swRequests := swRequests w;
     swMessageListeners := swMessageListeners w;
     permRequests := permRequests w; nextPromise := nextPromise w;
     log := log w |}.

Definition set_swRequests (l : list SWRequest) (w : World) : World :=
  {| _currentId := _currentId w; _notifications := _notifications w;
     _configuration := _configuration w; listeners := listeners w;
     timers := timers w; swRequests := l;
     swMessageListeners := swMessageListeners w;
     permRequests := permRequests w; nextPromise := nextPromise w;
     log := log w |}.

Definition set_swMessageListeners (n : nat) (w : World) : World :=
  {| _currentId := _currentId w; _notifications := _notifications w;
     _configuration := _configuration w; listeners := listeners w;
     timers := timers w; swRequests := swRequests w;
     swMessageListeners := n;
     permRequests := permRequests w; nextPromise := nextPromise w;
     log := log w |}.

Definition set_permRequests (l : list PermRequest) (w : World) : World :=
  {| _currentId := _currentId w; _notifications := _notifications w;
     _configuration := _configuration w; listeners := listeners w;
     timers := timers w; swRequests := swRequests w;
     swMessageListeners := swMessageListeners w;
     permRequests := l; nextPromise := nextPromise w;
     log := log w |}.

Definition set_nextPromise (n : nat) (w : World) : World :=
  {| _currentId := _currentId w; _notifications := _notifications w;
     _configuration := _configuration w; listeners := listeners w;
     timers := timers w; swRequests := swRequests w;
     swMessageListeners := swMessageListeners w;
     permRequests := permRequests w; nextPromise := n;
     log := log w |}.

Definition set_log (l : list Event) (w : World) : World :=
  {| _currentId := _currentId w; _notifications := _notifications w;
     _configuration := _configuration w; listeners := listeners w;
     timers := timers w; swRequests := swRequests w;
     swMessageListeners := swMessageListeners w;
     permRequests := permRequests w; nextPromise := nextPromise w;
     log := l |}.

(** ** The state-and-exception monad *)

Inductive Result (A : Type) :=
| Ok (a : A) (w : World)
| Throw (e : Thrown) (w : World).
Arguments Ok {A} a w.
Arguments Throw {A} e w.

Definition M (A : Type) := World -> Result A.

Definition ret {A} (a : A) : M A := fun w => Ok a w.

Definition bind {A B} (m : M A) (k : A -> M B) : M B :=
  fun w => match m w with
           | Ok a w' => k a w'
           | Throw e w' => Throw e w'
           end.

Definition throw {A} (e : Thrown) : M A := fun w => Throw e w.

(** [try { m } catch (e) { h e }] *)
Definition try_catch {A} (m : M A) (h : Thrown -> M A) : M A :=
  fun w => match m w with
           | Ok a w' => Ok a w'
           | Throw e w' => h e w'
           end.

Definition gets {A} (f : World -> A) : M A := fun w => Ok (f w) w.
Definition modify (f : World -> World) : M unit := fun w => Ok tt (f w).
Definition emit (ev : Event) : M unit :=
  modify (fun w => set_log (log w ++ [ev]) w).

(** The state a computation ends in, whether it returns or throws. *)
Definition final {A} (r : Result A) : World :=
  match r with Ok _ w => w | Throw _ w => w end.

(** What a computation returns, if it returns; what it throws, if it
    throws. *)
Definition returned {A} (r : Result A) : option A :=
  match r with Ok a _ => Some a | Throw _ _ => None end.

Definition thrown {A} (r : Result A) : option Thrown :=
  match r with Ok _ _ => None | Throw e _ => Some e end.

Declare Scope js_scope.
Delimit Scope js_scope with js.
Notation "x <- m ;; k" := (bind m (fun x => k))
  (at level 61, m at next level, right associativity) : js_scope.
Notation "m ;; k" := (bind m (fun _ => k))
  (at level 61, right associativity) : js_scope.
Local Open Scope js_scope.

(** ** The class Push *)

Module Push.

(** [this._notifications[id]]: a missing key reads as [undefined]. *)
Definition lookup (id : nat) (w : World) : JSValue :=
  match JSObject.get id (_notifications w) with
  | Some v => v
  | None => JUndefined
  end.

(** [this._agents.a.isSupported()] *)
Definition probe (env : Env) (a : AgentKind) : M bool :=
  emit (EvIsSupported a) ;; ret (isSupported env a).

(** Modelled from the spec: [this._agents.a.close(v)] is a best-effort
    closure that returns nothing (of the agents, only MobileChromeAgent
    is among the sources). *)
Definition agentClose (a : AgentKind) (v : JSValue) : M unit :=
  emit (EvAgentClose a v).

(** [this._agents.a.create(title, options)] for a synchronous agent. *)
Definition agentCreateSync (env : Env) (a : AgentKind) (title : string)
    (options : Options) : M JSValue :=
  emit (EvAgentCreate a title) ;;
  match agentCreate env a title options with
  | Returns v => ret v
  | Throws e => throw e
  end.

Definition _removeNotification (id : nat) : M bool :=
  fun w =>
    if JSObject.hasOwnProperty id (_notifications w)
    then Ok true (set_notifications (JSObject.delete id (_notifications w)) w)
    else Ok false w.

Definition _closeNotification (env : Env) (id : nat) : M bool :=
  notification <- gets (lookup id) ;;
  match notification with
  | JUndefined => ret false
  | _ =>
      success <- _removeNotification id ;;
      d <- probe env Desktop ;;
      if d then agentClose Desktop notification ;; ret success
      else
        k <- probe env WebKit ;;
        if k then agentClose WebKit notification ;; ret success
        else
          m <- probe env MS ;;
          if m then agentClose MS JUndefined ;; ret success
          else throw (ErrorObj "Unable to close notification: unknown interface")
  end.

Definition _addNotification (notification : JSValue) : M nat :=
  fun w =>
    let id := _currentId w in
    Ok id (set_currentId (S id)
             (set_notifications
                (JSObject.set id notification (_notifications w)) w)).

(** The wrapper is [Wrapper id]; its two members are [wrapperGet] and
    [wrapperClose] below. *)
Definition _prepareNotification (id : nat) (options : Options) : M Handle :=
  match timeout options with
  | Some (S d) =>
      emit (EvSetTimeout id (S d)) ;;
      modify (fun w => set_timers (timers w ++ [(id, S d)]) w) ;;
      ret (Wrapper id)
  | _ => ret (Wrapper id)
  end.

(** [handle.get()] *)
Definition wrapperGet (h : Handle) : M JSValue :=
  match h with
  | Wrapper id => gets (lookup id)
  | EmptyHandle => throw (TypeErrorObj "get is not a function")
  end.

(** [handle.close()] *)
Definition wrapperClose (env : Env) (h : Handle) : M unit :=
  match h with
  | Wrapper id => _closeNotification env id ;; ret tt
  | EmptyHandle => throw (TypeErrorObj "close is not a function")
  end.

(** The promise's [resolve] and [reject]: every call is logged; the first
    one for a promise settles it ([settlement] below). *)
Definition resolve (promise : nat) (h : Handle) : M unit :=
  emit (EvResolve promise h).
Definition reject (promise : nat) (e : Thrown) : M unit :=
  emit (EvReject promise e).

(** [notification.addEventListener(ev, l)] *)
Definition addEventListener (target : JSValue) (ev : string) (l : Listener)
    : M unit :=
  match target with
  | JObj n => modify (fun w => set_listeners (listeners w ++ [(n, ev, l)]) w)
  | _ => throw (TypeErrorObj "addEventListener")
  end.

Definition addUserListener (target : JSValue) (ev : string)
    (c : option Callback) : M unit :=
  match c with
  | Some f => addEventListener target ev (UserListener f)
  | None => ret tt
  end.

(** MobileChromeAgent.create, up to the point where it returns: the
    worker script is registered and the rest waits for [ready]. *)
Definition chromeCreate (id : nat) (title : string) (options : Options)
    (serviceWorker : string) (promise : nat) : M unit :=
  emit (EvSWRegister serviceWorker) ;;
  modify (fun w =>
    set_swRequests
      (swRequests w ++
         [{| sw_promise := promise; sw_id := id; sw_title := title;
             sw_options := options; sw_path := serviceWorker;
             sw_stage := AwaitReady |}]) w).

(** The agent selection of [_createCallback] (lines 163 to 204): the
    value left in the local variable [notification]. *)
Definition dispatch (env : Env) (title : string) (options : Options)
    (promise : nat) : M JSValue :=
  d <- probe env Desktop ;;
  if d then
    try_catch (agentCreateSync env Desktop title options)
      (fun _ =>
         c <- probe env Chrome ;;
         if c then
           id <- gets _currentId ;;
           path <- gets _configuration ;;
           chromeCreate id title options path promise ;;
           ret JNull
         else ret JNull)
  else
    k <- probe env WebKit ;;
    if k then agentCreateSync env WebKit title options
    else
      f <- probe env Firefox ;;
      if f then agentCreateSync env Firefox title options ;; ret JNull
      else
        m <- probe env MS ;;
        if m then agentCreateSync env MS title options
        else throw (ErrorObj (unknown_interface (messages env))).

(** What [_createCallback] does with that value (lines 206 to 233). *)
Definition deliver (notification : JSValue) (options : Options)
    (promise : nat) : M unit :=
  match notification with
  | JNull => ret tt
  | _ =>
      id <- _addNotification notification ;;
      wrapper <- _prepareNotification id options ;;
      addUserListener notification "show" (onShow options) ;;
      addUserListener notification "error" (onError options) ;;
      addUserListener notification "click" (onClick options) ;;
      addEventListener notification "close"
        (OnCloseListener id (onClose options)) ;;
      addEventListener notification "cancel"
        (OnCloseListener id (onClose options)) ;;
      resolve promise wrapper
  end ;;
  resolve promise EmptyHandle.

Definition _createCallback (env : Env) (title : string)
    (options0 : option Options) (promise : nat) : M unit :=
  let options := match options0 with Some o => o | None => noOptions end in
  notification <- dispatch env title options promise ;;
  deliver notification options promise.

(** [new Promise(...)]: a fresh promise identity. *)
Definition newPromise : M nat :=
  fun w => Ok (nextPromise w) (set_nextPromise (S (nextPromise w)) w).

(** [create] returns the promise (its identity); a title that is not a
    string makes it throw instead. *)
Definition create (env : Env) (title : Title) (options : option Options)
    : M nat :=
  match title with
  | TitleOther =>
      throw (ErrorObj "PushError: Title of notification must be a string")
  | TitleString t =>
      emit EvPermissionHas ;;
      promise <- newPromise ;;
      if negb (permissionHas env) then
        emit (EvPermissionRequest promise) ;;
        modify (fun w =>
          set_permRequests
            (permRequests w ++
               [{| pr_promise := promise; pr_title := t;
                   pr_options := options |}]) w) ;;
        ret promise
      else
        try_catch (_createCallback env t options promise)
          (fun e => reject promise e) ;;
        ret promise
  end.

Definition count : M nat := gets (fun w => List.length (_notifications w)).

(** What [close(tag)] evaluates to: a boolean, or [undefined] when the
    loop ends without a [return]. *)
Inductive CloseValue := CloseBool (b : bool) | CloseUndefined.

Definition truthy (v : CloseValue) : bool :=
  match v with CloseBool b => b | CloseUndefined => false end.

(** The [for (key in this._notifications)] loop of [close]; a key deleted
    before the loop reaches it is not visited. *)
Fixpoint closeLoop (env : Env) (t : string) (ks : list nat) : M CloseValue :=
  match ks with
  | [] => ret CloseUndefined
  | key :: ks' =>
      present <- gets (fun w => JSObject.hasOwnProperty key (_notifications w)) ;;
      if present then
        notification <- gets (lookup key) ;;
        match notification with
        | JObj n =>
            if String.eqb (tag n) t
            then b <- _closeNotification env key ;; ret (CloseBool b)
            else closeLoop env t ks'
        | _ => throw (TypeErrorObj "tag")
        end
      else closeLoop env t ks'
  end.

Definition close (env : Env) (t : string) : M CloseValue :=
  ks <- gets (fun w => JSObject.keys (_notifications w)) ;;
  closeLoop env t ks.

(** The loop of [clear]: [success = success && this._closeNotification(key)]. *)
Fixpoint clearLoop (env : Env) (ks : list nat) (success : bool) : M bool :=
  match ks with
  | [] => ret success
  | key :: ks' =>
      present <- gets (fun w => JSObject.hasOwnProperty key (_notifications w)) ;;
      if present then
        if success
        then b <- _closeNotification env key ;; clearLoop env ks' b
        else clearLoop env ks' false
      else clearLoop env ks' success
  end.

Definition clear (env : Env) : M bool :=
  ks <- gets (fun w => JSObject.keys (_notifications w)) ;;
  clearLoop env ks true.

(** [supported = supported || agent.isSupported()] over the agents in the
    order the constructor lists them. *)
Fixpoint supportedLoop (env : Env) (agents : list AgentKind) (s : bool) : M bool :=
  match agents with
  | [] => ret s
  | a :: agents' =>
      if s then supportedLoop env agents' true
      else b <- probe env a ;; supportedLoop env agents' b
  end.

Definition supported (env : Env) : M bool :=
  supportedLoop env [Desktop; Chrome; Firefox; MS; WebKit] false.

(** The callback [_createCallback] hands to the Service-Worker agent
    (lines 174 to 186); it closes over [options] and [resolve]. *)
Definition serviceWorkerCallback (options : Options) (promise : nat)
    (notifications : list JSValue) : M unit :=
  id <- _addNotification (last notifications JUndefined) ;;
  emit EvSWAddMessageListener ;;
  modify (fun w => set_swMessageListeners (S (swMessageListeners w)) w) ;;
  wrapper <- _prepareNotification id options ;;
  resolve promise wrapper.

(** One listener on the worker's message channel (lines 178 to 183), run
    on a parsed message: [id] is [Some i] when [data.id] is the integer
    [i]; a negative integer is never a key of the registry and removes
    nothing, like [None]. *)
Definition serviceWorkerMessage (action : string) (id : option nat) : M unit :=
  match id with
  | Some i =>
      if String.eqb action "close" then _removeNotification i ;; ret tt
      else ret tt
  | None => ret tt
  end.

(** The [onClose] closure of [_createCallback] (lines 155 to 161). *)
Definition onCloseHandler (id : nat) (c : option Callback) : M unit :=
  _removeNotification id ;;
  match c with
  | Some f => emit (EvUserCallback f)
  | None => ret tt
  end.

End Push.

(** ** The promise of a [create] call *)

Inductive PromiseState :=
| Pending
| Resolved (h : Handle)
| Rejected (e : Thrown).

(** One logged call applied to a promise: a [resolve] or [reject] of that
    promise settles it if it is pending and is ignored otherwise. The
    boolean tells whether the call took effect. *)
Definition settle (promise : nat) (p : PromiseState) (ev : Event)
    : PromiseState * bool :=
  match p, ev with
  | Pending, EvResolve q h =>
      if Nat.eqb q promise then (Resolved h, true) else (Pending, false)
  | Pending, EvReject q e =>
      if Nat.eqb q promise then (Rejected e, true) else (Pending, false)
  | _, _ => (p, false)
  end.

(** The state of a promise after the calls of a log, and the number of
    calls that took effect. *)
Fixpoint settleAll (promise : nat) (p : PromiseState) (l : list Event)
    : PromiseState * nat :=
  match l with
  | [] => (p, 0)
  | ev :: l' =>
      let (p', took) := settle promise p ev in
      let (p'', n) := settleAll promise p' l' in
      (p'', if took then S n else n)
  end.

Definition promiseState (promise : nat) (w : World) : PromiseState :=
  fst (settleAll promise Pending (log w)).

Definition effectiveSettlements (promise : nat) (w : World) : nat :=
  snd (settleAll promise Pending (log w)).

(** The agents on which a call was made, in order. *)
Fixpoint agentsCreated (l : list Event) : list AgentKind :=
  match l with
  | [] => []
  | EvAgentCreate a _ :: l' => a :: agentsCreated l'
  | EvSWRegister _ :: l' => Chrome :: agentsCreated l'
  | _ :: l' => agentsCreated l'
  end.

(** The agents probed with [isSupported], in order. *)
Fixpoint agentsProbed (l : list Event) : list AgentKind :=
  match l with
  | [] => []
  | EvIsSupported a :: l' => a :: agentsProbed l'
  | _ :: l' => agentsProbed l'
  end.

(** The permission requests issued, in order. *)
Fixpoint permissionRequests (l : list Event) : list nat :=
  match l with
  | [] => []
  | EvPermissionRequest p :: l' => p :: permissionRequests l'
  | _ :: l' => permissionRequests l'
  end.

(** The ids of the wrappers handed to [resolve], in order. *)
Fixpoint wrapperIds (l : list Event) : list nat :=
  match l with
  | [] => []
  | EvResolve _ (Wrapper id) :: l' => id :: wrapperIds l'
  | _ :: l' => wrapperIds l'
  end.

(** ** The event loop

    Everything that runs after [create] has returned: the permission
    gate's answer, the stages of MobileChromeAgent.create, native events,
    timers and worker messages. An exception nobody catches is logged and
    the state it left behind stays. *)

Module Host.
Import Push.

Definition uncaught {A} (m : M A) : World -> World :=
  fun w =>
    match m w with
    | Ok _ w' => w'
    | Throw e w' => set_log (log w' ++ [EvUncaught e]) w'
    end.

Definition findPerm (promise : nat) (l : list PermRequest) : option PermRequest :=
  find (fun r => Nat.eqb (pr_promise r) promise) l.

Definition dropPerm (promise : nat) (l : list PermRequest) : list PermRequest :=
  filter (fun r => negb (Nat.eqb (pr_promise r) promise)) l.

(** Modelled from the spec: Permission.request (the Permission class is
    not among the sources) fires exactly one of its two callbacks exactly
    once: a request is answered while it is pending and then dropped. *)
Definition takePerm (promise : nat) : M (option PermRequest) :=
  reqs <- gets permRequests ;;
  match findPerm promise reqs with
  | Some r => modify (set_permRequests (dropPerm promise reqs)) ;; ret (Some r)
  | None => ret None
  end.

(** The granted callback of [create] (lines 252 to 257). *)
Definition permissionGranted (env : Env) (promise : nat) : M unit :=
  req <- takePerm promise ;;
  match req with
  | Some r =>
      try_catch
        (_createCallback env (pr_title r) (pr_options r) promise)
        (fun e => reject promise e)
  | None => ret tt
  end.

(** The denied callback of [create] (lines 258 to 260). *)
Definition permissionDenied (promise : nat) : M unit :=
  req <- takePerm promise ;;
  match req with
  | Some _ => reject promise (StringValue "Permission request declined")
  | None => ret tt
  end.

Definition findSW (promise : nat) (l : list SWRequest) : option SWRequest :=
  find (fun r => Nat.eqb (sw_promise r) promise) l.

Definition dropSW (promise : nat) (l : list SWRequest) : list SWRequest :=
  filter (fun r => negb (Nat.eqb (sw_promise r) promise)) l.

Definition stageSW (promise : nat) (st : SWStage) (l : list SWRequest)
    : list SWRequest :=
  map (fun r =>
         if Nat.eqb (sw_promise r) promise then
           {| sw_promise := sw_promise r; sw_id := sw_id r;
              sw_title := sw_title r; sw_options := sw_options r;
              sw_path := sw_path r; sw_stage := st |}
         else r) l.

(** [serviceWorker.ready] is fulfilled: the payload is assembled and
    [showNotification] is called (MobileChromeAgent.create, lines 50 to 81). *)
Definition swReady (promise : nat) : M unit :=
  reqs <- gets swRequests ;;
  match findSW promise reqs with
  | Some r =>
      match sw_stage r with
      | AwaitReady =>
          emit (EvSWShowNotification (sw_title r) (sw_id r)) ;;
          modify (set_swRequests (stageSW promise AwaitShown reqs))
      | _ => ret tt
      end
  | None => ret tt
  end.

(** [showNotification] succeeded: the shown notifications are asked for
    (lines 82 and 83). *)
Definition swShown (promise : nat) : M unit :=
  reqs <- gets swRequests ;;
  match findSW promise reqs with
  | Some r =>
      match sw_stage r with
      | AwaitShown =>
          emit EvSWGetNotifications ;;
          modify (set_swRequests (stageSW promise AwaitList reqs))
      | _ => ret tt
      end
  | None => ret tt
  end.

(** [getNotifications] answers: an empty message goes to the worker and
    the callback runs on the list (lines 83 to 89). *)
Definition swList (promise : nat) (notifications : list JSValue) : M unit :=
  reqs <- gets swRequests ;;
  match findSW promise reqs with
  | Some r =>
      match sw_stage r with
      | AwaitList =>
          modify (set_swRequests (dropSW promise reqs)) ;;
          emit EvSWPostMessage ;;
          serviceWorkerCallback (sw_options r) promise notifications
      | _ => ret tt
      end
  | None => ret tt
  end.

(** The worker's registration or display fails with [msg]: the handler
    throws an error with the fixed prefix (lines 91 to 99), which nobody
    catches. *)
Definition swFailed (env : Env) (promise : nat) (msg : string) : M unit :=
  reqs <- gets swRequests ;;
  match findSW promise reqs with
  | Some r =>
      modify (set_swRequests (dropSW promise reqs)) ;;
      match sw_stage r with
      | AwaitReady =>
          throw (ErrorObj (String.append (sw_registration_error (messages env)) msg))
      | AwaitShown =>
          throw (ErrorObj (String.append (sw_notification_error (messages env)) msg))
      | AwaitList => throw (ErrorObj msg)
      end
  | None => ret tt
  end.

(** The listeners of a native record for one signal, run in the order
    they were attached. *)
Fixpoint runListeners (n : Notification) (ev : string)
    (ls : list (Notification * string * Listener)) : M unit :=
  match ls with
  | [] => ret tt
  | (n', ev', l) :: ls' =>
      (if Nat.eqb (nid n') (nid n) && String.eqb ev' ev then
         match l with
         | UserListener c => emit (EvUserCallback c)
         | OnCloseListener id c => onCloseHandler id c
         end
       else ret tt) ;;
      runListeners n ev ls'
  end.

Definition nativeEvent (n : Notification) (ev : string) : M unit :=
  ls <- gets listeners ;;
  runListeners n ev ls.

(** The [k]-th pending timer fires: [wrapper.close()]. *)
Definition timerFires (env : Env) (k : nat) : M unit :=
  ts <- gets timers ;;
  match nth_error ts k with
  | Some (id, _) =>
      modify (set_timers (firstn k ts ++ skipn (S k) ts)) ;;
      wrapperClose env (Wrapper id)
  | None => ret tt
  end.

(** A message from the worker reaches every listener attached so far. *)
Fixpoint workerMessage (listenersLeft : nat) (action : string)
    (id : option nat) : M unit :=
  match listenersLeft with
  | 0 => ret tt
  | S k => serviceWorkerMessage action id ;; workerMessage k action id
  end.

(** What can happen to a Push instance. *)
Inductive Op :=
| OpCreate (title : Title) (options : option Options)
| OpPermissionGranted (promise : nat)
| OpPermissionDenied (promise : nat)
| OpSWReady (promise : nat)
| OpSWShown (promise : nat)
| OpSWList (promise : nat) (notifications : list JSValue)
| OpSWFailed (promise : nat) (msg : string)
| OpNativeEvent (n : Notification) (ev : string)
| OpTimer (k : nat)
| OpWorkerMessage (action : string) (id : option nat)
| OpHandleGet (h : Handle)
| OpHandleClose (h : Handle)
| OpClose (t : string)
| OpClear
| OpCount
| OpSupported.

Definition step (env : Env) (op : Op) : World -> World :=
  match op with
  | OpCreate title options => uncaught (create env title options)
  | OpPermissionGranted p => uncaught (permissionGranted env p)
  | OpPermissionDenied p => uncaught (permissionDenied p)
  | OpSWReady p => uncaught (swReady p)
  | OpSWShown p => uncaught (swShown p)
  | OpSWList p ns => uncaught (swList p ns)
  | OpSWFailed p msg => uncaught (swFailed env p msg)
  | OpNativeEvent n ev => uncaught (nativeEvent n ev)
  | OpTimer k => uncaught (timerFires env k)
  | OpWorkerMessage action id =>
      fun w => uncaught (workerMessage (swMessageListeners w) action id) w
  | OpHandleGet h => uncaught (wrapperGet h)
  | OpHandleClose h => uncaught (wrapperClose env h)
  | OpClose t => uncaught (close env t)
  | OpClear => uncaught (clear env)
  | OpCount => uncaught count
  | OpSupported => uncaught (supported env)
  end.

(** A run: each operation meets the environment of its moment. *)
Fixpoint run (ops : list (Env * Op)) (w : World) : World :=
  match ops with
  | [] => w
  | (env, op) :: ops' => run ops' (step env op w)
  end.

End Host.

(** ** MobileChromeAgent: callback bodies and the worker's payload *)

Module MobileChromeAgent.

(** [s] without the prefix [p], when it starts with [p]. *)
Fixpoint dropPrefix (p s : string) : option string :=
  match p with
  | EmptyString => Some s
  | String a p' =>
      match s with
      | EmptyString => None
      | String b s' => if Ascii.eqb a b then dropPrefix p' s' else None
      end
  end.

(** The longest prefix of [s] without an opening brace, and what follows
    it: the stretch [[^{]*] can cover. *)
Fixpoint spanNoBrace (s : string) : string * string :=
  match s with
  | EmptyString => (EmptyString, EmptyString)
  | String c s' =>
      if Ascii.eqb c "{"%char then (EmptyString, s)
      else let (run, rest) := spanNoBrace s' in (String c run, rest)
  end.

(** [s] without its last character, when that is a closing brace: what
    a group of any characters followed by a closing brace and the end of
    the text captures of [s]. *)
Fixpoint stripClosingBrace (s : string) : option string :=
  match s with
  | EmptyString => None
  | String c s' =>
      match s' with
      | EmptyString => if Ascii.eqb c "}"%char then Some EmptyString else None
      | _ => option_map (String c) (stripClosingBrace s')
      end
  end.

(** The regular expression of [getFunctionBody], which reads
    function[^{]+{(G)}$ with any run of characters for G, tried at the
    start of [s]: the word, at least one character other than an opening
    brace, the first opening brace, and a rest that ends with a closing
    brace; the group is that rest without the brace. No other way of
    matching exists from a given start: the stretch before the brace
    cannot stop early (a brace must follow) nor go on (it takes no
    brace), and [$] puts the last brace at the end of the text. *)
Definition matchHere (s : string) : option string :=
  match dropPrefix "function" s with
  | None => None
  | Some r =>
      match spanNoBrace r with
      | (EmptyString, _) => None
      | (_, EmptyString) => None
      | (_, String c body) =>
          if Ascii.eqb c "{"%char then stripClosingBrace body else None
      end
  end.

(** [text.match(...)]: the group of the leftmost match. *)
Fixpoint regexGroup (s : string) : option string :=
  match matchHere s with
  | Some body => Some body
  | None =>
      match s with
      | EmptyString => None
      | String _ s' => regexGroup s'
      end
  end.

(** [getFunctionBody(func)] on the text [func.toString()] gives: the
    group, or [null] ([None]) when the expression does not match. *)
Definition getFunctionBody (text : string) : option string :=
  regexGroup text.

(** A value of the payload object. *)
Inductive PayloadValue :=
| PNumber (n : nat)
| PString (s : string)
| PNull
| PUndefined.

Fixpoint getKey (k : string) (o : list (string * PayloadValue))
    : option PayloadValue :=
  match o with
  | [] => None
  | (k', v) :: o' => if String.eqb k k' then Some v else getKey k o'
  end.

(** [o[k] = v] on an object with string keys. *)
Fixpoint assign (k : string) (v : PayloadValue)
    (o : list (string * PayloadValue)) : list (string * PayloadValue) :=
  match o with
  | [] => [(k, v)]
  | (k', v') :: o' =>
      if String.eqb k k' then (k, v) :: o' else (k', v') :: assign k v o'
  end.

(** [{...a, ...b}]; only what a key holds is meant, not the enumeration
    order of the result. *)
Fixpoint spread (a b : list (string * PayloadValue))
    : list (string * PayloadValue) :=
  match b with
  | [] => a
  | (k, v) :: b' => spread (assign k v a) b'
  end.

(** [Util.isFunction(c) ? this.getFunctionBody(c) : ''], with [source]
    standing for [toString] on functions. *)
Definition callbackBody (source : Callback -> string) (c : option Callback)
    : PayloadValue :=
  match c with
  | Some f =>
      match getFunctionBody (source f) with
      | Some body => PString body
      | None => PNull
      end
  | None => PString EmptyString
  end.

(** The payload handed to [showNotification] as [data] (lines 52 to 69).
    [origin] is [document.location.href]; [data] is [options.data], with
    [None] for [undefined] and [null]. *)
Definition localData (source : Callback -> string) (origin : string)
    (id : nat) (options : Options)
    (data : option (list (string * PayloadValue)))
    : list (string * PayloadValue) :=
  let base :=
    [ ("id", PNumber id);
      ("link", match link options with
               | Some l => PString l
               | None => PUndefined
               end);
      ("origin", PString origin);
      ("onClick", callbackBody source (onClick options));
      ("onClose", callbackBody source (onClose options)) ] in
  match data with
  | Some d => spread base d
  | None => base
  end.

End MobileChromeAgent.

(** ** Walking a priority list

    The agents asked, and the agent chosen, when a list of agents is tried
    in order until one reports support. *)

Fixpoint askedUntilSupported (sup : AgentKind -> bool) (order : list AgentKind)
    : list AgentKind :=
  match order with
  | [] => []
  | a :: order' => a :: (if sup a then [] else askedUntilSupported sup order')
  end.

Definition firstSupported (sup : AgentKind -> bool) (order : list AgentKind)
    : option AgentKind :=
  find sup order.

(** ** Sample environments and records *)

Definition someMessages : Messages :=
  {| unknown_interface := "PushError: unable to create notification: unknown interface";
     sw_notification_error := "PushError: could not show a ServiceWorker notification due to the following error: ";
     sw_registration_error := "PushError: could not register the ServiceWorker due to the following error: " |}.

Definition record (k : nat) (t : string) : JSValue :=
  JObj {| nid := k; tag := t |}.

(** A window whose agents answer [isSupported] with [sup] and whose
    synchronous agents do [mk] on [create]; permission is granted. *)
Definition window (sup : AgentKind -> bool) (mk : AgentKind -> AgentResult) : Env :=
  {| isSupported := sup; agentCreate := fun a _ _ => mk a;
     permissionHas := true; messages := someMessages |}.

Definition withoutPermission (env : Env) : Env :=
  {| isSupported := isSupported env; agentCreate := agentCreate env;
     permissionHas := false; messages := messages env |}.

Definition only (a : AgentKind) (b : AgentKind) : bool :=
  match a, b with
  | Desktop, Desktop | Chrome, Chrome | Firefox, Firefox | MS, MS
  | WebKit, WebKit => true
  | _, _ => false
  end.

(** A desktop browser: [new Notification] returns the record [r]. *)
Definition desktopWindow (r : JSValue) : Env :=
  window (only Desktop) (fun _ => Returns r).

(** Chrome on Android: [Notification] exists but its constructor throws,
    and a Service Worker is at hand. *)
Definition mobileChromeWindow : Env :=
  window (fun a => match a with Desktop | Chrome => true | _ => false end)
         (fun _ => Throws (TypeErrorObj "Illegal constructor")).

(** Only the Service-Worker agent reports support. *)
Definition workerOnlyWindow : Env :=
  window (only Chrome) (fun _ => Throws (TypeErrorObj "unreachable")).

(** Firefox mobile: only [mozNotification], which returns the record [r]. *)
Definition firefoxWindow (r : JSValue) : Env :=
  window (only Firefox) (fun _ => Returns r).

(** No notification mechanism at all. *)
Definition bareWindow : Env :=
  window (fun _ => false) (fun _ => Throws (TypeErrorObj "unreachable")).

(** A world with the given registry and id counter. *)
Definition withRegistry (n : nat) (o : list (nat * JSValue)) : World :=
  set_currentId n (set_notifications o newPush).

Import Push Host.

(** ** Notions used in the statements *)

(** Whether the text [p] occurs somewhere in [s]. *)
Fixpoint occurs (p s : string) : bool :=
  match MobileChromeAgent.dropPrefix p s with
  | Some _ => true
  | None =>
      match s with
      | EmptyString => false
      | String _ s' => occurs p s'
      end
  end.

(** An entry holding a record whose tag is not [t]. *)
Definition otherTag (t : string) (v : JSValue) : Prop :=
  exists n, v = JObj n /\ tag n <> t.

(** Chrome on Android, two creations through the Service Worker: the
    worker's list is empty for the first one and holds one record for
    the second one. *)
Definition twoWorkerCreations : list (Env * Op) :=
  [ (mobileChromeWindow, OpCreate (TitleString "first") None);
    (mobileChromeWindow, OpSWReady 0);
    (mobileChromeWindow, OpSWShown 0);
    (mobileChromeWindow, OpSWList 0 []);
    (mobileChromeWindow, OpCreate (TitleString "second") None);
    (mobileChromeWindow, OpSWReady 1);
    (mobileChromeWindow, OpSWShown 1);
    (mobileChromeWindow, OpSWList 1 [record 11 "a"]) ].

(** What the id discipline is about: [_currentId], the registry, and the
    ids of the wrappers handed out so far. *)
Definition View : Type := nat * list (nat * JSValue) * list nat.

Definition viewOf (w : World) : View :=
  (_currentId w, _notifications w, wrapperIds (log w)).

(** The only moves the code makes on a view: deleting one key, and
    storing a value under the current counter while incrementing it, with
    or without a wrapper for that id being handed to [resolve]. *)
Inductive grows : View -> View -> Prop :=
| grows_refl v : grows v v
| grows_delete c reg ids k v' :
    grows (c, JSObject.delete k reg, ids) v' -> grows (c, reg, ids) v'
| grows_alloc c reg ids x (handed : bool) v' :
    grows (S c, JSObject.set c x reg, if handed then ids ++ [c] else ids) v' ->
    grows (c, reg, ids) v'.

Definition evolving {A} (m : M A) : Prop :=
  forall w, grows (viewOf w) (viewOf (final (m w))).

(** The invariant: every key of the registry and every id handed out is
    below the counter, keys and handed ids are strictly ascending, and the
    counter is at least [c0]. *)
Definition InvView (c0 : nat) (v : View) : Prop :=
  let '(c, reg, ids) := v in
  c0 <= c
  /\ JSObject.below c reg
  /\ StronglySorted lt (JSObject.keys reg)
  /\ Forall (fun i => i < c) ids
  /\ StronglySorted lt ids.

Definition Inv (c0 : nat) (w : World) : Prop := InvView c0 (viewOf w).

(** The agent that serves a request for [t] and [o] in [env] returns a
    record. *)
Definition servesRecord (env : Env) (t : string) (o : option Options) : Prop :=
  forall p w,
    exists n,
      returned (dispatch env t (match o with Some o' => o' | None => noOptions end) p w)
      = Some (JObj n).

(** An operation of a run that is a [create] with a string title, with
    permission granted, served by an agent that returns a record. *)
Definition recordCreation (eo : Env * Op) : Prop :=
  exists t o,
    snd eo = OpCreate (TitleString t) o
    /\ permissionHas (fst eo) = true
    /\ servesRecord (fst eo) t o.

(** The body both promise callbacks of [create] share:
    [try { this._createCallback(title, options, resolve) } catch (e) { reject(e) }]. *)
Definition executor (env : Env) (t : string) (o : option Options) (p : nat)
    : M unit :=
  try_catch (_createCallback env t o p) (fun e => reject p e).

(** The handles passed to the [resolve] of one promise, in call order. *)
Fixpoint resolveCalls (promise : nat) (l : list Event) : list Handle :=
  match l with
  | [] => []
  | EvResolve q h :: l' =>
      if Nat.eqb q promise then h :: resolveCalls promise l'
      else resolveCalls promise l'
  | _ :: l' => resolveCalls promise l'
  end.

Definition failed (promise : nat) (w : World) : bool :=
  match promiseState promise w with
  | Rejected _ => true
  | _ => false
  end.

(** [create("x")] without permission, then the gate's answer. *)
Definition gateRun (env : Env) (granted : bool) : World :=
  run [ (env, OpCreate (TitleString "x") None);
        (env, if granted then OpPermissionGranted 0 else OpPermissionDenied 0) ]
      newPush.

(** The worker signals of one creation, in order: ready, displayed, and
    the list of shown notifications. *)
Definition workerSignals (env : Env) (promise : nat) (ns : list JSValue)
    : list (Env * Op) :=
  [ (env, OpSWReady promise); (env, OpSWShown promise);
    (env, OpSWList promise ns) ].

(** Callbacks for the three signals a caller can listen to. *)
Definition withCallbacks : Options :=
  {| timeout := None;
     onShow := Some {| cb_name := "shown" |};
     onError := Some {| cb_name := "failed" |};
     onClick := Some {| cb_name := "clicked" |};
     onClose := None; link := None |}.

Definition restage (r : SWRequest) (st : SWStage) : SWRequest :=
  {| sw_promise := sw_promise r; sw_id := sw_id r; sw_title := sw_title r;
     sw_options := sw_options r; sw_path := sw_path r; sw_stage := st |}.

(** The agent closures made, in order: the agent and the argument it
    was given. *)
Fixpoint agentsClosed (l : list Event) : list (AgentKind * JSValue) :=
  match l with
  | [] => []
  | EvAgentClose a v :: l' => (a, v) :: agentsClosed l'
  | _ :: l' => agentsClosed l'
  end.

(** The caller's callbacks invoked, in order. *)
Fixpoint userCallbacks (l : list Event) : list Callback :=
  match l with
  | [] => []
  | EvUserCallback c :: l' => c :: userCallbacks l'
  | _ :: l' => userCallbacks l'
  end.

(** One of the three agents [_closeNotification] knows is supported. *)
Definition canClose (env : Env) : bool :=
  isSupported env Desktop || isSupported env WebKit || isSupported env MS.

(** The agent selection of [env] for [t] and [o] leaves the record [n]. *)
Definition recordServed (env : Env) (t : string) (o : option Options)
    (n : Notification) : Prop :=
  forall p w,
    returned (dispatch env t (match o with Some o' => o' | None => noOptions end) p w)
    = Some (JObj n).

(** The options a creation works with: [options || {}]. *)
Definition optionsOr (o : option Options) : Options :=
  match o with Some o' => o' | None => noOptions end.

(** The listeners [_createCallback] attaches to the record [n] it
    registers under [id]. *)
Definition attached (n : Notification) (id : nat) (o : Options)
    : list (Notification * string * Listener) :=
  (match onShow o with Some f => [(n, "show", UserListener f)] | None => [] end)
  ++ (match onError o with Some f => [(n, "error", UserListener f)] | None => [] end)
  ++ (match onClick o with Some f => [(n, "click", UserListener f)] | None => [] end)
  ++ [ (n, "close", OnCloseListener id (onClose o));
       (n, "cancel", OnCloseListener id (onClose o)) ].

(** The timer [_prepareNotification] sets for [id], if any. *)
Definition scheduled (id : nat) (o : Options) : list (nat * nat) :=
  match timeout o with
  | Some (S d) => [(id, S d)]
  | _ => []
  end.

(** ** Integer-keyed objects: basic facts *)

Section ObjectFacts.
Context {V : Type}.
Implicit Types (o : list (nat * V)) (k n : nat) (v : V).

Lemma hasOwnProperty_get k o :
  JSObject.hasOwnProperty k o = false <-> JSObject.get k o = None.
Proof.
  induction o as [|[k' v'] o IH]; simpl; [tauto|].
  destruct (Nat.eqb k k'); [split; discriminate | exact IH].
Qed.

Lemma hasOwnProperty_In k o :
  JSObject.hasOwnProperty k o = true <-> In k (JSObject.keys o).
Proof.
  induction o as [|[k' v'] o IH]; simpl.
  - split; [discriminate | tauto].
  - destruct (Nat.eqb_spec k k') as [->|Hne].
    + split; auto.
    + rewrite IH. split; [auto | intros [E|H]; [congruence | exact H]].
Qed.

Lemma get_delete_same k o : JSObject.get k (JSObject.delete k o) = None.
Proof.
  induction o as [|[k' v'] o IH]; simpl; [reflexivity|].
  destruct (Nat.eqb k k') eqn:E; [exact IH | simpl; rewrite E; exact IH].
Qed.

Lemma hasOwnProperty_delete_same k o :
  JSObject.hasOwnProperty k (JSObject.delete k o) = false.
Proof. apply hasOwnProperty_get, get_delete_same. Qed.

Lemma delete_absent k o :
  JSObject.hasOwnProperty k o = false -> JSObject.delete k o = o.
Proof.
  induction o as [|[k' v'] o IH]; simpl; [reflexivity|].
  destruct (Nat.eqb k k'); [discriminate | intros H; f_equal; auto].
Qed.

Lemma delete_notin k o :
  ~ In k (JSObject.keys o) -> JSObject.delete k o = o.
Proof.
  intros H. apply delete_absent.
  destruct (JSObject.hasOwnProperty k o) eqn:E; [|reflexivity].
  apply hasOwnProperty_In in E. contradiction.
Qed.

(** Deleting the key of an entry of an object without repeated keys
    takes out that entry and nothing else. *)
Lemma delete_middle k v (l1 l2 : list (nat * V)) :
  NoDup (JSObject.keys (l1 ++ (k, v) :: l2)) ->
  JSObject.delete k (l1 ++ (k, v) :: l2) = l1 ++ l2.
Proof.
  unfold JSObject.keys. rewrite map_app. simpl. intros Hnd.
  pose proof (NoDup_remove_2 _ _ _ Hnd) as Hnotin.
  assert (H1 : ~ In k (JSObject.keys l1))
    by (intros H; apply Hnotin, in_or_app; left; exact H).
  assert (H2 : ~ In k (JSObject.keys l2))
    by (intros H; apply Hnotin, in_or_app; right; exact H).
  clear Hnd Hnotin.
  induction l1 as [|[k' v'] l1 IH]; simpl.
  - rewrite Nat.eqb_refl. apply delete_notin; exact H2.
  - destruct (Nat.eqb_spec k k') as [->|Hne].
    + exfalso. apply H1. left. reflexivity.
    + f_equal. apply IH. intros H. apply H1. right. exact H.
Qed.

Lemma below_delete n k o :
  JSObject.below n o -> JSObject.below n (JSObject.delete k o).
Proof.
  unfold JSObject.below. induction 1 as [|[k' v'] o Hk Ho IH]; simpl.
  - constructor.
  - destruct (Nat.eqb k k'); [exact IH | constructor; assumption].
Qed.

(** A key above every key of the object goes to the end: with ids handed
    out in ascending order, enumeration order is insertion order. *)
Lemma set_below n v o :
  JSObject.below n o -> JSObject.set n v o = o ++ [(n, v)].
Proof.
  unfold JSObject.below. induction 1 as [|[k' v'] o Hk Ho IH]; simpl.
  - reflexivity.
  - simpl in Hk.
    destruct (Nat.eqb_spec n k'); [lia|].
    destruct (Nat.ltb_spec n k'); [lia|].
    f_equal. exact IH.
Qed.

Lemma below_set n v o :
  JSObject.below n o -> JSObject.below (S n) (JSObject.set n v o).
Proof.
  intros H. rewrite (set_below _ _ _ H). unfold JSObject.below in *.
  apply Forall_app. split.
  - eapply Forall_impl; [|exact H]. simpl. intros; lia.
  - constructor; [simpl; lia | constructor].
Qed.

Lemma keys_delete_sorted k o :
  StronglySorted lt (JSObject.keys o) ->
  StronglySorted lt (JSObject.keys (JSObject.delete k o)).
Proof.
  unfold JSObject.keys. induction o as [|[k' v'] o IH]; simpl; intros H.
  - constructor.
  - apply StronglySorted_inv in H. destruct H as [Hs Hall].
    destruct (Nat.eqb k k'); [auto|]. simpl. constructor; [auto|].
    rewrite Forall_forall in *. intros x Hx. apply Hall.
    apply in_map_iff in Hx. destruct Hx as [[a b] [E Hin]]. simpl in E. subst.
    apply in_map_iff. exists (x, b). split; [reflexivity|].
    clear -Hin. induction o as [|[a' b'] o IHo]; simpl in *; [contradiction|].
    destruct (Nat.eqb k a'); [right; auto|].
    destruct Hin as [E|Hin]; [left; exact E | right; auto].
Qed.

End ObjectFacts.

(** ** Closing one id *)

Lemma lookup_absent id w :
  JSObject.hasOwnProperty id (_notifications w) = false ->
  lookup id w = JUndefined.
Proof.
  intros H. apply hasOwnProperty_get in H. unfold lookup. rewrite H. reflexivity.
Qed.

Lemma lookup_present id w :
  lookup id w <> JUndefined ->
  JSObject.hasOwnProperty id (_notifications w) = true.
Proof.
  intros H. destruct (JSObject.hasOwnProperty id (_notifications w)) eqn:E;
    [reflexivity | exfalso; apply H, lookup_absent, E].
Qed.

Lemma _closeNotification_undefined env id w :
  lookup id w = JUndefined -> _closeNotification env id w = Ok false w.
Proof.
  intros H. unfold _closeNotification, bind, gets. rewrite H. reflexivity.
Qed.

(** The registry after [_closeNotification] on an entry that does not
    read as [undefined], whether the call returns or throws. *)
Lemma _closeNotification_deletes env id w :
  lookup id w <> JUndefined ->
  _notifications (final (_closeNotification env id w))
  = JSObject.delete id (_notifications w)
  /\ _currentId (final (_closeNotification env id w)) = _currentId w.
Proof.
  intros H. pose proof (lookup_present _ _ H) as Hown.
  unfold _closeNotification, bind, gets.
  destruct (lookup id w) eqn:El; try congruence;
    unfold _removeNotification; rewrite Hown;
    unfold probe, agentClose, emit, modify, bind, ret, throw; simpl;
    destruct (isSupported env Desktop); simpl; auto;
    destruct (isSupported env WebKit); simpl; auto;
    destruct (isSupported env MS); simpl; auto.
Qed.

(** With a closing agent at hand, [_closeNotification] on such an entry
    returns [true]. *)
Lemma _closeNotification_true env id w :
  lookup id w <> JUndefined ->
  (isSupported env Desktop || isSupported env WebKit || isSupported env MS) = true ->
  exists w', _closeNotification env id w = Ok true w'.
Proof.
  intros H Hs. pose proof (lookup_present _ _ H) as Hown.
  unfold _closeNotification, bind, gets.
  destruct (lookup id w) eqn:El; try congruence;
    unfold _removeNotification; rewrite Hown;
    unfold probe, agentClose, emit, modify, bind, ret, throw; simpl;
    destruct (isSupported env Desktop); simpl; eauto;
    destruct (isSupported env WebKit); simpl; eauto;
    destruct (isSupported env MS); simpl; eauto; discriminate.
Qed.


(** C8. Closing an id that is not in the registry (never there, or
    already closed) is a no-op: [_closeNotification] returns [false]
    without throwing and leaves the whole state as it was, and so do
    [_removeNotification] and the handle's [close]; consequently a second
    closure of any id returns [false] and changes nothing. *)
Theorem closing_absent_id_is_noop (env env' : Env) (id : nat) (w : World) :
  (JSObject.hasOwnProperty id (_notifications w) = false ->
     _closeNotification env id w = Ok false w
     /\ _removeNotification id w = Ok false w
     /\ wrapperClose env (Wrapper id) w = Ok tt w)
  /\ (let w' := final (_closeNotification env id w) in
      _closeNotification env' id w' = Ok false w').
Proof.
  split.
  - intros Habs. pose proof (lookup_absent _ _ Habs) as Hl.
    repeat split.
    + apply _closeNotification_undefined, Hl.
    + unfold _removeNotification. rewrite Habs. reflexivity.
    + unfold wrapperClose, bind.
      rewrite (_closeNotification_undefined _ _ _ Hl). reflexivity.
  - intros w'. subst w'.
    destruct (lookup id w) eqn:El.
    + apply _closeNotification_undefined.
      assert (Hne : lookup id w <> JUndefined) by congruence.
      destruct (_closeNotification_deletes env id w Hne) as [Hreg _].
      unfold lookup. rewrite Hreg, get_delete_same. reflexivity.
    + rewrite (_closeNotification_undefined env _ _ El). simpl.
      apply _closeNotification_undefined, El.
    + apply _closeNotification_undefined.
      assert (Hne : lookup id w <> JUndefined) by congruence.
      destruct (_closeNotification_deletes env id w Hne) as [Hreg _].
      unfold lookup. rewrite Hreg, get_delete_same. reflexivity.
Qed.

(** ** The loops of [close] and [clear] *)

Lemma get_entry {V} (o : list (nat * V)) k v :
  NoDup (JSObject.keys o) -> In (k, v) o -> JSObject.get k o = Some v.
Proof.
  induction o as [|[k' v'] o IH]; simpl; intros Hnd Hin; [contradiction|].
  apply NoDup_cons_iff in Hnd. destruct Hnd as [Hnotin Hnd].
  destruct Hin as [E|Hin].
  - inversion E; subst. rewrite Nat.eqb_refl. reflexivity.
  - destruct (Nat.eqb_spec k k') as [->|Hne]; [|auto].
    exfalso. apply Hnotin. unfold JSObject.keys.
    apply in_map_iff. exists (k', v). split; [reflexivity | exact Hin].
Qed.

Lemma get_delete_other {V} (o : list (nat * V)) k k' :
  k <> k' -> JSObject.get k' (JSObject.delete k o) = JSObject.get k' o.
Proof.
  intros Hne. induction o as [|[a b] o IH]; simpl; [reflexivity|].
  destruct (Nat.eqb_spec k a) as [->|Hka].
  - destruct (Nat.eqb_spec k' a); [congruence | exact IH].
  - simpl. destruct (Nat.eqb k' a); [reflexivity | exact IH].
Qed.

Lemma closeLoop_skip env t w ks ks' :
  Forall (fun key => exists v, JSObject.get key (_notifications w) = Some v
                               /\ otherTag t v) ks ->
  closeLoop env t (ks ++ ks') w = closeLoop env t ks' w.
Proof.
  induction 1 as [|key ks [v [Hget [n [-> Hne]]]] _ IH]; simpl; [reflexivity|].
  unfold bind at 1, gets at 1.
  assert (Hown : JSObject.hasOwnProperty key (_notifications w) = true).
  { destruct (JSObject.hasOwnProperty key (_notifications w)) eqn:E; [reflexivity|].
    apply hasOwnProperty_get in E. congruence. }
  rewrite Hown. unfold bind at 1, gets at 1, lookup. rewrite Hget.
  apply String.eqb_neq in Hne. rewrite Hne. exact IH.
Qed.

Lemma entries_get {V} (P : V -> Prop) (o l1 l2 : list (nat * V)) :
  o = l1 ++ l2 ->
  NoDup (JSObject.keys o) ->
  Forall (fun kv => P (snd kv)) l1 ->
  Forall (fun key => exists v, JSObject.get key o = Some v /\ P v)
         (JSObject.keys l1).
Proof.
  intros -> Hnd Hall.
  apply Forall_forall. unfold JSObject.keys at 1. intros key Hin.
  apply in_map_iff in Hin. destruct Hin as [[k v] [E Hin]]. simpl in E. subst.
  exists v. split.
  - apply get_entry; [exact Hnd | apply in_or_app; left; exact Hin].
  - rewrite Forall_forall in Hall. exact (Hall _ Hin).
Qed.

(** [close(tag)] when the first record tagged [t] sits under key [k]: the
    call is [_closeNotification(k)]. *)
Lemma close_first_match env t w l1 k n l2 :
  _notifications w = l1 ++ (k, JObj n) :: l2 ->
  NoDup (JSObject.keys (_notifications w)) ->
  Forall (fun kv => otherTag t (snd kv)) l1 ->
  tag n = t ->
  close env t w = (b <- _closeNotification env k ;; ret (CloseBool b)) w.
Proof.
  intros Hreg Hnd Hall Htag.
  unfold close. unfold bind at 1, gets at 1.
  rewrite Hreg at 1. unfold JSObject.keys. rewrite map_app. simpl.
  rewrite closeLoop_skip
    by (exact (entries_get (otherTag t) _ l1 _ Hreg Hnd Hall)).
  simpl. unfold bind at 1, gets at 1.
  assert (Hget : JSObject.get k (_notifications w) = Some (JObj n)).
  { apply get_entry; [exact Hnd|]. rewrite Hreg. apply in_or_app.
    right. left. reflexivity. }
  assert (Hown : JSObject.hasOwnProperty k (_notifications w) = true).
  { destruct (JSObject.hasOwnProperty k (_notifications w)) eqn:E; [reflexivity|].
    apply hasOwnProperty_get in E. congruence. }
  rewrite Hown. unfold bind at 1, gets at 1, lookup. rewrite Hget.
  apply String.eqb_eq in Htag. rewrite Htag. reflexivity.
Qed.

(** [close(tag)] when every entry is a record with another tag. *)
Lemma close_no_match env t w :
  NoDup (JSObject.keys (_notifications w)) ->
  Forall (fun kv => otherTag t (snd kv)) (_notifications w) ->
  close env t w = Ok CloseUndefined w.
Proof.
  intros Hnd Hall. unfold close. unfold bind at 1, gets at 1.
  rewrite <- (app_nil_r (JSObject.keys (_notifications w))).
  rewrite closeLoop_skip; [reflexivity|].
  apply (entries_get (otherTag t) _ (_notifications w) []);
    [symmetry; apply app_nil_r | exact Hnd | exact Hall].
Qed.

Lemma final_bind_ret {A B} (m : M A) (f : A -> B) w :
  final ((a <- m ;; ret (f a)) w) = final (m w).
Proof. unfold bind, ret. destruct (m w); reflexivity. Qed.

Lemma length_delete_nodup {V} (o : list (nat * V)) k :
  NoDup (JSObject.keys o) ->
  List.length o <= S (List.length (JSObject.delete k o)).
Proof.
  induction o as [|[k' v'] o IH]; simpl; intros Hnd; [lia|].
  apply NoDup_cons_iff in Hnd. destruct Hnd as [Hnotin Hnd].
  destruct (Nat.eqb_spec k k') as [->|Hne].
  - rewrite (delete_notin _ _ Hnotin). lia.
  - simpl. specialize (IH Hnd). lia.
Qed.

Lemma closeLoop_cons env t key ks w :
  closeLoop env t (key :: ks) w
  = if JSObject.hasOwnProperty key (_notifications w) then
      match lookup key w with
      | JObj n =>
          if String.eqb (tag n) t
          then (b <- _closeNotification env key ;; ret (CloseBool b)) w
          else closeLoop env t ks w
      | _ => Throw (TypeErrorObj "tag") w
      end
    else closeLoop env t ks w.
Proof.
  simpl. unfold bind at 1, gets at 1.
  destruct (JSObject.hasOwnProperty key (_notifications w)); [|reflexivity].
  unfold bind at 1, gets at 1.
  destruct (lookup key w) as [| |n]; try reflexivity.
  destruct (String.eqb (tag n) t); reflexivity.
Qed.

(** Whatever [close(tag)] does, it deletes under at most one key. *)
Lemma closeLoop_at_most_one env t ks w :
  _notifications (final (closeLoop env t ks w)) = _notifications w
  \/ exists k, _notifications (final (closeLoop env t ks w))
               = JSObject.delete k (_notifications w).
Proof.
  induction ks as [|key ks IH]; [left; reflexivity|].
  rewrite closeLoop_cons.
  destruct (JSObject.hasOwnProperty key (_notifications w)); [|exact IH].
  destruct (lookup key w) as [| |n] eqn:El; try (left; reflexivity).
  destruct (String.eqb (tag n) t); [|exact IH].
  right. exists key. rewrite final_bind_ret.
  apply _closeNotification_deletes. congruence.
Qed.

(** X19. [close(tag)] on a registry whose entries, up to the first record
    tagged [t], are records. It walks the registry in enumeration order
    and stops at the first record whose tag matches: that record alone is
    closed through [_closeNotification] and removed, the entries before
    and after it stay, even when they carry the same tag; when every entry
    is a record with another tag it returns [undefined], which is
    false-equivalent, and changes nothing. Whatever the entries hold, at
    most one entry leaves the registry. The enumeration order is insertion
    order: with every key below the counter, as in every reachable state,
    a new notification is enumerated last. *)
Theorem close_tag_first_match_only (env : Env) (t : string) (w : World)
    (Hnd : NoDup (JSObject.keys (_notifications w))) :
  (forall l1 k n l2,
      _notifications w = l1 ++ (k, JObj n) :: l2 ->
      Forall (fun kv => otherTag t (snd kv)) l1 ->
      tag n = t ->
      close env t w = (b <- _closeNotification env k ;; ret (CloseBool b)) w
      /\ _notifications (final (close env t w)) = l1 ++ l2)
  /\ (Forall (fun kv => otherTag t (snd kv)) (_notifications w) ->
      close env t w = Ok CloseUndefined w
      /\ truthy CloseUndefined = false)
  /\ List.length (_notifications w)
     <= S (List.length (_notifications (final (close env t w))))
  /\ (JSObject.below (_currentId w) (_notifications w) ->
      forall v,
        JSObject.keys (_notifications (final (_addNotification v w)))
        = JSObject.keys (_notifications w) ++ [_currentId w]).
Proof.
  split; [|split; [|split]]; cycle 3.
  { intros Hb v. simpl. rewrite (set_below _ _ _ Hb).
    unfold JSObject.keys. rewrite map_app. reflexivity. }
  - intros l1 k n l2 Hreg Hall Htag.
    pose proof (close_first_match env t w l1 k n l2 Hreg Hnd Hall Htag) as Hc.
    split; [exact Hc|].
    rewrite Hc, final_bind_ret.
    assert (Hl : lookup k w <> JUndefined).
    { unfold lookup. rewrite (get_entry _ k (JObj n) Hnd); [discriminate|].
      rewrite Hreg. apply in_or_app. right. left. reflexivity. }
    destruct (_closeNotification_deletes env k w Hl) as [-> _].
    rewrite Hreg. apply delete_middle. rewrite <- Hreg. exact Hnd.
  - intros Hall. split; [apply close_no_match; assumption | reflexivity].
  - unfold close. unfold bind at 1, gets at 1.
    destruct (closeLoop_at_most_one env t (JSObject.keys (_notifications w)) w)
      as [-> | [k ->]]; [lia | apply length_delete_nodup, Hnd].
Qed.

(** Two records share the tag "a": [close("a")] takes the first one only. *)
Lemma close_tag_first_match_only_witness :
  let w := withRegistry 3 [(0, record 10 "b"); (1, record 11 "a"); (2, record 12 "a")] in
  let env := desktopWindow (record 0 "") in
  NoDup (JSObject.keys (_notifications w))
  /\ _notifications (final (close env "a" w))
     = [(0, record 10 "b"); (2, record 12 "a")]
  /\ List.length (_notifications w)
     <= S (List.length (_notifications (final (close env "a" w)))).
Proof.
  intros w env.
  assert (Hnd : NoDup (JSObject.keys (_notifications w))).
  { simpl. repeat constructor; simpl; intuition discriminate. }
  split; [exact Hnd|].
  destruct (close_tag_first_match_only env "a" w Hnd) as [Hfirst [_ [Hlen _]]].
  split; [|exact Hlen].
  refine (proj2 (Hfirst [(0, record 10 "b")] 1 {| nid := 11; tag := "a" |}
                   [(2, record 12 "a")] eq_refl _ eq_refl)).
  constructor; [|constructor].
  exists {| nid := 10; tag := "b" |}. split; [reflexivity | discriminate].
Defined.

Lemma closing_absent_id_is_noop_witness :
  let w := withRegistry 2 [(1, record 11 "a")] in
  let env := desktopWindow (record 0 "") in
  JSObject.hasOwnProperty 0 (_notifications w) = false
  /\ _closeNotification env 0 w = Ok false w
  /\ _closeNotification env 1 (final (_closeNotification env 1 w))
     = Ok false (final (_closeNotification env 1 w)).
Proof.
  intros w env. split; [reflexivity|]. split.
  - exact (proj1 (proj1 (closing_absent_id_is_noop env env 0 w) eq_refl)).
  - exact (proj2 (closing_absent_id_is_noop env env 1 w)).
Defined.

Lemma clearLoop_cons env key ks success w :
  clearLoop env (key :: ks) success w
  = if JSObject.hasOwnProperty key (_notifications w) then
      if success
      then (b <- _closeNotification env key ;; clearLoop env ks b) w
      else clearLoop env ks false w
    else clearLoop env ks success w.
Proof.
  simpl. unfold bind at 1, gets at 1.
  destruct (JSObject.hasOwnProperty key (_notifications w)); [|reflexivity].
  destruct success; reflexivity.
Qed.



(** ** [clear] *)

(** Once [success] is false, [success && ...] calls nothing any more. *)
Lemma clearLoop_false env ks w : clearLoop env ks false w = Ok false w.
Proof.
  induction ks as [|key ks IH]; [reflexivity|].
  rewrite clearLoop_cons.
  destruct (JSObject.hasOwnProperty key (_notifications w)); exact IH.
Qed.

Lemma In_delete {V} (o : list (nat * V)) k kv :
  In kv (JSObject.delete k o) -> In kv o /\ fst kv <> k.
Proof.
  induction o as [|[k' v'] o IH]; simpl; [tauto|].
  destruct (Nat.eqb_spec k k') as [->|Hne].
  - intros H. destruct (IH H). auto.
  - intros [E|H]; [subst; simpl; auto | destruct (IH H); auto].
Qed.

Lemma fold_delete_all {V} ks (o : list (nat * V)) :
  (forall kv, In kv o -> In (fst kv) ks) ->
  fold_left (fun o k => JSObject.delete k o) ks o = [].
Proof.
  revert o. induction ks as [|k ks IH]; simpl; intros o H.
  - destruct o as [|kv o]; [reflexivity | destruct (H kv (or_introl eq_refl))].
  - apply IH. intros kv Hin. apply In_delete in Hin. destruct Hin as [Hin Hne].
    destruct (H kv Hin) as [E|Hks]; [congruence | exact Hks].
Qed.

Lemma clearLoop_all env ks :
  (isSupported env Desktop || isSupported env WebKit || isSupported env MS) = true ->
  NoDup ks ->
  forall w,
    (forall k, In k ks -> lookup k w <> JUndefined) ->
    exists w',
      clearLoop env ks true w = Ok true w'
      /\ _notifications w'
         = fold_left (fun o k => JSObject.delete k o) ks (_notifications w).
Proof.
  intros Hs. induction 1 as [|k ks Hnotin Hnd IH]; intros w Hlive.
  - exists w. split; reflexivity.
  - rewrite clearLoop_cons.
    assert (Hk : lookup k w <> JUndefined) by (apply Hlive; left; reflexivity).
    rewrite (lookup_present _ _ Hk).
    destruct (_closeNotification_true env k w Hk Hs) as [w1 H1].
    destruct (_closeNotification_deletes env k w Hk) as [Hreg _].
    rewrite H1 in Hreg. simpl in Hreg.
    unfold bind. rewrite H1.
    destruct (IH w1) as [w' [Hrun Hfin]].
    + intros k' Hin. unfold lookup. rewrite Hreg.
      rewrite get_delete_other by (intros ->; contradiction).
      apply (Hlive k'). right. exact Hin.
    + exists w'. split; [exact Hrun|]. simpl. rewrite Hfin, Hreg. reflexivity.
Qed.

(** When every entry holds a value other than [undefined] and one of the
    three closing agents is supported, [clear] closes them all, empties
    the registry and returns [true]. *)
Lemma clear_closes_all env w :
  (isSupported env Desktop || isSupported env WebKit || isSupported env MS) = true ->
  NoDup (JSObject.keys (_notifications w)) ->
  Forall (fun kv => snd kv <> JUndefined) (_notifications w) ->
  exists w', clear env w = Ok true w' /\ _notifications w' = [].
Proof.
  intros Hs Hnd Hall. unfold clear. unfold bind at 1, gets at 1.
  destruct (clearLoop_all env _ Hs Hnd w) as [w' [Hrun Hfin]].
  - intros k Hin. unfold JSObject.keys in Hin. apply in_map_iff in Hin.
    destruct Hin as [[k0 v] [E Hin]]. simpl in E. subst k0.
    unfold lookup. rewrite (get_entry _ k v Hnd Hin).
    rewrite Forall_forall in Hall. exact (Hall _ Hin).
  - exists w'. split; [exact Hrun|]. rewrite Hfin.
    apply fold_delete_all. intros [k v] Hin. simpl.
    unfold JSObject.keys. apply in_map_iff. exists (k, v). split; auto.
Qed.

(** C2 (the code departs from it). A closure that fails does not let the
    remaining closures proceed. (1) After [twoWorkerCreations] the
    registry holds [undefined] under 0 and a record under 1; [clear]
    gets [false] for id 0, and [success && ...] then skips id 1, which
    stays registered although closing it on its own succeeds. (2) With
    two records and no closing agent, the first closure throws: [clear]
    raises instead of returning [false], and id 1 is never closed. *)
Theorem clear_stops_at_first_failure :
  (let w := run twoWorkerCreations newPush in
   _notifications w = [(0, JUndefined); (1, record 11 "a")]
   /\ returned (clear mobileChromeWindow w) = Some false
   /\ _notifications (final (clear mobileChromeWindow w))
      = [(0, JUndefined); (1, record 11 "a")]
   /\ returned (_closeNotification mobileChromeWindow 1 w) = Some true
   /\ _notifications (final (_closeNotification mobileChromeWindow 1 w))
      = [(0, JUndefined)])
  /\ (let w := withRegistry 2 [(0, record 10 "a"); (1, record 11 "b")] in
      thrown (clear bareWindow w)
      = Some (ErrorObj "Unable to close notification: unknown interface")
      /\ returned (clear bareWindow w) = None
      /\ _notifications (final (clear bareWindow w)) = [(1, record 11 "b")]).
Proof. vm_compute. repeat split. Qed.

(** C9 (the code departs from it). An entry that holds [undefined] makes
    [close(tag)] raise instead of closing the first match or returning a
    false-equivalent value. After [twoWorkerCreations] the registry holds
    [undefined] under 0 and a record tagged "a" under 1. [close("zzz")],
    which no entry's tag matches, raises the TypeError of reading [tag]
    on [undefined]; [close("a")] raises it too and the record tagged "a"
    stays registered and open, although [_closeNotification] on its id
    closes and removes it. *)
Theorem close_tag_raises_on_undefined_entry :
  let w := run twoWorkerCreations newPush in
  _notifications w = [(0, JUndefined); (1, record 11 "a")]
  /\ thrown (close mobileChromeWindow "zzz" w) = Some (TypeErrorObj "tag")
  /\ returned (close mobileChromeWindow "zzz" w) = None
  /\ thrown (close mobileChromeWindow "a" w) = Some (TypeErrorObj "tag")
  /\ returned (close mobileChromeWindow "a" w) = None
  /\ final (close mobileChromeWindow "a" w) = w
  /\ returned (_closeNotification mobileChromeWindow 1 w) = Some true
  /\ _notifications (final (_closeNotification mobileChromeWindow 1 w))
     = [(0, JUndefined)].
Proof. vm_compute. repeat split. Qed.

(** ** The log *)

Lemma agentsProbed_app l l' :
  agentsProbed (l ++ l') = agentsProbed l ++ agentsProbed l'.
Proof.
  induction l as [|ev l IH]; simpl; [reflexivity|].
  destruct ev; simpl; rewrite IH; reflexivity.
Qed.

Lemma agentsCreated_app l l' :
  agentsCreated (l ++ l') = agentsCreated l ++ agentsCreated l'.
Proof.
  induction l as [|ev l IH]; simpl; [reflexivity|].
  destruct ev; simpl; rewrite IH; reflexivity.
Qed.

Lemma permissionRequests_app l l' :
  permissionRequests (l ++ l') = permissionRequests l ++ permissionRequests l'.
Proof.
  induction l as [|ev l IH]; simpl; [reflexivity|].
  destruct ev; simpl; rewrite IH; reflexivity.
Qed.

Lemma wrapperIds_app l l' :
  wrapperIds (l ++ l') = wrapperIds l ++ wrapperIds l'.
Proof.
  induction l as [|ev l IH]; simpl; [reflexivity|].
  destruct ev as [| | | | |q h| | | | | | | | |]; simpl; try exact IH.
  destruct h; simpl; rewrite IH; reflexivity.
Qed.

Lemma settleAll_app promise s l l' :
  settleAll promise s (l ++ l')
  = (fst (settleAll promise (fst (settleAll promise s l)) l'),
     snd (settleAll promise s l)
     + snd (settleAll promise (fst (settleAll promise s l)) l')).
Proof.
  revert s. induction l as [|ev l IH]; intros s; simpl.
  - destruct (settleAll promise s l'); reflexivity.
  - destruct (settle promise s ev) as [s' took].
    rewrite IH.
    destruct (settleAll promise s' l) as [s'' n]; simpl.
    destruct (settleAll promise s'' l') as [s3 m]; simpl.
    destruct took; reflexivity.
Qed.

Create Rewrite HintDb logs.
#[local] Hint Rewrite agentsProbed_app agentsCreated_app
  permissionRequests_app wrapperIds_app : logs.

(** Unfolding the monad and the calls that only touch the log. *)
Ltac js_unfold :=
  unfold probe, agentCreateSync, agentClose, chromeCreate, resolve, reject,
    emit, modify, gets, bind, ret, throw, try_catch in *.

Ltac js_logs :=
  simpl; autorewrite with logs; simpl;
  repeat rewrite <- app_assoc; simpl; rewrite ?app_nil_r.

(** ** Agent selection *)


(** ** How the counter, the registry and the handles evolve *)

Lemma grows_trans v1 v2 v3 : grows v1 v2 -> grows v2 v3 -> grows v1 v3.
Proof.
  induction 1 as [v | c reg ids k v' _ IH | c reg ids x handed v' _ IH];
    intros H3; [exact H3 | |].
  - apply (grows_delete c reg ids k). auto.
  - apply (grows_alloc c reg ids x handed). auto.
Qed.

Lemma StronglySorted_snoc (l : list nat) n :
  StronglySorted lt l -> Forall (fun i => i < n) l ->
  StronglySorted lt (l ++ [n]).
Proof.
  induction l as [|a l IH]; simpl; intros Hs Hall.
  - constructor; constructor.
  - apply StronglySorted_inv in Hs. destruct Hs as [Hs Ha].
    apply Forall_cons_iff in Hall. destruct Hall as [Han Hall].
    constructor; [auto|].
    apply Forall_app. split; [exact Ha | constructor; [exact Han | constructor]].
Qed.

Lemma keys_app {V} (l l' : list (nat * V)) :
  JSObject.keys (l ++ l') = JSObject.keys l ++ JSObject.keys l'.
Proof. unfold JSObject.keys. apply map_app. Qed.

Lemma below_keys {V} n (o : list (nat * V)) :
  JSObject.below n o -> Forall (fun i => i < n) (JSObject.keys o).
Proof.
  unfold JSObject.below, JSObject.keys. intros H.
  apply Forall_map. exact H.
Qed.

Lemma grows_keeps_invariant c0 v v' :
  grows v v' -> InvView c0 v -> InvView c0 v'.
Proof.
  induction 1 as [v | c reg ids k v' _ IH | c reg ids x handed v' _ IH];
    intros Hinv; [exact Hinv | |]; apply IH; clear IH;
    destruct Hinv as [Hc [Hb [Hs [Hi Hsi]]]]; unfold InvView.
  - repeat split; auto using below_delete, keys_delete_sorted.
  - split; [lia|]. split; [apply below_set; exact Hb|].
    split.
    { rewrite (set_below _ _ _ Hb), keys_app. simpl.
      apply StronglySorted_snoc; [exact Hs | apply below_keys, Hb]. }
    destruct handed.
    + split.
      * apply Forall_app. split.
        -- eapply Forall_impl; [|exact Hi]. simpl. intros; lia.
        -- constructor; [lia | constructor].
      * apply StronglySorted_snoc; assumption.
    + split; [|exact Hsi].
      eapply Forall_impl; [|exact Hi]. simpl. intros; lia.
Qed.

Lemma grows_counter v v' : grows v v' -> fst (fst v) <= fst (fst v').
Proof. induction 1; simpl in *; lia. Qed.

(** *** Rules for [evolving] *)

Lemma evolving_ret {A} (a : A) : evolving (ret a).
Proof. intros w. apply grows_refl. Qed.

Lemma evolving_throw {A} e : evolving (@throw A e).
Proof. intros w. apply grows_refl. Qed.

Lemma evolving_gets {A} (f : World -> A) : evolving (gets f).
Proof. intros w. apply grows_refl. Qed.

Lemma evolving_bind {A B} (m : M A) (k : A -> M B) :
  evolving m -> (forall a, evolving (k a)) -> evolving (bind m k).
Proof.
  intros Hm Hk w. unfold bind. specialize (Hm w).
  destruct (m w) as [a w'|e w']; simpl in *; [|exact Hm].
  eapply grows_trans; [exact Hm | apply Hk].
Qed.

Lemma evolving_try_catch {A} (m : M A) (h : Thrown -> M A) :
  evolving m -> (forall e, evolving (h e)) -> evolving (try_catch m h).
Proof.
  intros Hm Hh w. unfold try_catch. specialize (Hm w).
  destruct (m w) as [a w'|e w']; simpl in *; [exact Hm|].
  eapply grows_trans; [exact Hm | apply Hh].
Qed.

Lemma evolving_modify (f : World -> World) :
  (forall w, viewOf (f w) = viewOf w) -> evolving (modify f).
Proof. intros H w. simpl. rewrite H. apply grows_refl. Qed.

Lemma evolving_emit ev : wrapperIds [ev] = [] -> evolving (emit ev).
Proof.
  intros H. apply evolving_modify. intros w. unfold viewOf. simpl.
  rewrite wrapperIds_app, H, app_nil_r. reflexivity.
Qed.

Lemma evolving__removeNotification id : evolving (_removeNotification id).
Proof.
  intros w. unfold _removeNotification.
  destruct (JSObject.hasOwnProperty id (_notifications w)); simpl.
  - unfold viewOf. simpl. eapply grows_delete, grows_refl.
  - apply grows_refl.
Qed.

Ltac evo :=
  repeat first
    [ apply evolving_ret
    | apply evolving_throw
    | apply evolving_gets
    | apply evolving__removeNotification
    | apply evolving_emit; reflexivity
    | apply evolving_modify; intros; reflexivity
    | apply evolving_bind; [|intros]
    | apply evolving_try_catch; [|intros]
    | match goal with
      | |- evolving (match ?x with _ => _ end) => destruct x
      | |- evolving (if ?b then _ else _) => destruct b
      end ].

Lemma evolving_probe env a : evolving (probe env a).
Proof. unfold probe. evo. Qed.

Lemma evolving__closeNotification env id : evolving (_closeNotification env id).
Proof. unfold _closeNotification, probe, agentClose. evo. Qed.

Lemma evolving_dispatch env t o p : evolving (dispatch env t o p).
Proof. unfold dispatch, probe, agentCreateSync, chromeCreate. evo. Qed.

(** The view [deliver] leaves: nothing changes for [null]; any other
    value is stored under the current counter, and a record's wrapper is
    handed to [resolve]. *)
Lemma deliver_view v o p w :
  viewOf (final (deliver v o p w))
  = match v with
    | JNull => viewOf w
    | JUndefined =>
        (S (_currentId w),
         JSObject.set (_currentId w) v (_notifications w),
         wrapperIds (log w))
    | JObj _ =>
        (S (_currentId w),
         JSObject.set (_currentId w) v (_notifications w),
         wrapperIds (log w) ++ [_currentId w])
    end.
Proof.
  destruct o as [to os oe oc ocl ln].
  destruct v; destruct to as [[|d]|]; destruct os, oe, oc;
    unfold deliver, _prepareNotification, addUserListener, addEventListener,
      _addNotification, viewOf;
    js_unfold; simpl; autorewrite with logs; simpl;
    rewrite ?app_nil_r; reflexivity.
Qed.

Lemma evolving_deliver v o p : evolving (deliver v o p).
Proof.
  intros w. rewrite deliver_view. destruct v.
  - apply grows_refl.
  - apply (grows_alloc _ _ _ JUndefined false), grows_refl.
  - apply (grows_alloc _ _ _ (JObj n) true), grows_refl.
Qed.

Lemma serviceWorkerCallback_view o p ns w :
  viewOf (final (serviceWorkerCallback o p ns w))
  = (S (_currentId w),
     JSObject.set (_currentId w) (last ns JUndefined) (_notifications w),
     wrapperIds (log w) ++ [_currentId w]).
Proof.
  destruct o as [to os oe oc ocl ln].
  destruct to as [[|d]|];
    unfold serviceWorkerCallback, _prepareNotification, _addNotification, viewOf;
    js_unfold; simpl; autorewrite with logs; simpl;
    rewrite ?app_nil_r; reflexivity.
Qed.

Lemma evolving_serviceWorkerCallback o p ns :
  evolving (serviceWorkerCallback o p ns).
Proof.
  intros w. rewrite serviceWorkerCallback_view.
  apply (grows_alloc _ _ _ (last ns JUndefined) true), grows_refl.
Qed.

Lemma evolving__createCallback env t o p : evolving (_createCallback env t o p).
Proof.
  unfold _createCallback. apply evolving_bind;
    [apply evolving_dispatch | intros; apply evolving_deliver].
Qed.

Lemma evolving_reject p e : evolving (reject p e).
Proof. unfold reject. evo. Qed.

Lemma evolving_create env title o : evolving (create env title o).
Proof.
  unfold create, newPromise. destruct title; [|evo].
  apply evolving_bind; [evo | intros _].
  apply evolving_bind; [intros w; apply grows_refl | intros p].
  destruct (negb (permissionHas env)); [evo|].
  apply evolving_bind; [|intros; evo].
  apply evolving_try_catch;
    [apply evolving__createCallback | intros; apply evolving_reject].
Qed.

Lemma evolving_closeLoop env t ks : evolving (closeLoop env t ks).
Proof.
  induction ks as [|key ks IH]; simpl; [evo|].
  apply evolving_bind; [evo | intros present].
  destruct present; [|exact IH].
  apply evolving_bind; [evo | intros v].
  destruct v as [| |n]; [evo | evo |].
  destruct (String.eqb (tag n) t); [|exact IH].
  apply evolving_bind; [apply evolving__closeNotification | intros; evo].
Qed.

Lemma evolving_clearLoop env ks : forall success, evolving (clearLoop env ks success).
Proof.
  induction ks as [|key ks IH]; intros success; simpl; [evo|].
  apply evolving_bind; [evo | intros present].
  destruct present; [|apply IH].
  destruct success; [|apply IH].
  apply evolving_bind; [apply evolving__closeNotification | intros; apply IH].
Qed.

Lemma evolving_supportedLoop env agents : forall s, evolving (supportedLoop env agents s).
Proof.
  induction agents as [|a agents IH]; intros s; simpl; [evo|].
  destruct s; [apply IH|].
  apply evolving_bind; [apply evolving_probe | intros; apply IH].
Qed.

Lemma evolving_takePerm p : evolving (takePerm p).
Proof. unfold takePerm. evo. Qed.

Lemma evolving_runListeners n ev ls : evolving (runListeners n ev ls).
Proof.
  induction ls as [|[[n' ev'] l] ls IH]; simpl; [evo|].
  apply evolving_bind; [|intros; exact IH].
  unfold onCloseHandler. evo.
Qed.

Lemma evolving_workerMessage k action id : evolving (workerMessage k action id).
Proof.
  induction k as [|k IH]; simpl; [evo|].
  apply evolving_bind; [|intros; exact IH].
  unfold serviceWorkerMessage. evo.
Qed.

Lemma evolving_uncaught {A} (m : M A) w :
  evolving m -> grows (viewOf w) (viewOf (uncaught m w)).
Proof.
  intros Hm. unfold uncaught. specialize (Hm w).
  destruct (m w) as [a w'|e w']; simpl in *; [exact Hm|].
  unfold viewOf in *. simpl. rewrite wrapperIds_app. simpl.
  rewrite app_nil_r. exact Hm.
Qed.

(** Every operation moves the view by deletions and allocations only. *)
Lemma step_grows env op w : grows (viewOf w) (viewOf (step env op w)).
Proof.
  destruct op; simpl; apply evolving_uncaught.
  - apply evolving_create.
  - unfold permissionGranted. apply evolving_bind; [apply evolving_takePerm|].
    intros [r|]; [|evo].
    apply evolving_try_catch;
      [apply evolving__createCallback | intros; apply evolving_reject].
  - unfold permissionDenied. apply evolving_bind; [apply evolving_takePerm|].
    intros [r|]; [apply evolving_reject | evo].
  - unfold swReady. evo.
  - unfold swShown. evo.
  - unfold swList. apply evolving_bind; [evo | intros reqs].
    destruct (findSW promise reqs) as [r|]; [|evo].
    destruct (sw_stage r); [evo | evo |].
    apply evolving_bind; [evo | intros _].
    apply evolving_bind; [evo | intros _].
    apply evolving_serviceWorkerCallback.
  - unfold swFailed. evo.
  - unfold nativeEvent. apply evolving_bind; [evo | intros].
    apply evolving_runListeners.
  - unfold timerFires. apply evolving_bind; [evo | intros ts].
    destruct (nth_error ts k) as [[id d]|]; [|evo].
    apply evolving_bind; [evo | intros _].
    unfold wrapperClose.
    apply evolving_bind; [apply evolving__closeNotification | intros; evo].
  - apply evolving_workerMessage.
  - unfold wrapperGet. evo.
  - unfold wrapperClose. destruct h; [|evo].
    apply evolving_bind; [apply evolving__closeNotification | intros; evo].
  - unfold close. apply evolving_bind; [evo | intros; apply evolving_closeLoop].
  - unfold clear. apply evolving_bind; [evo | intros; apply evolving_clearLoop].
  - unfold count. evo.
  - apply evolving_supportedLoop.
Qed.

Lemma run_grows ops : forall w, grows (viewOf w) (viewOf (run ops w)).
Proof.
  induction ops as [|[env op] ops IH]; intros w; simpl; [apply grows_refl|].
  eapply grows_trans; [apply step_grows | apply IH].
Qed.

Lemma newPush_invariant : Inv 0 newPush.
Proof.
  unfold Inv, InvView, viewOf, JSObject.below. simpl.
  repeat split; auto; constructor.
Qed.

Lemma sorted_nodup (l : list nat) : StronglySorted lt l -> NoDup l.
Proof.
  induction 1 as [|a l _ IH Hall]; constructor; [|exact IH].
  intros Hin. rewrite Forall_forall in Hall. specialize (Hall _ Hin). lia.
Qed.

(** In every reachable state the registry has no repeated key and every
    key is below the counter. *)
Lemma reachable_registry ops :
  let w := run ops newPush in
  NoDup (JSObject.keys (_notifications w))
  /\ JSObject.below (_currentId w) (_notifications w).
Proof.
  intros w. subst w.
  pose proof (grows_keeps_invariant 0 _ _ (run_grows ops newPush)
                newPush_invariant) as H.
  unfold InvView, viewOf in H. destruct H as [_ [Hb [Hs _]]].
  split; [apply sorted_nodup, Hs | exact Hb].
Qed.

Lemma dispatch_view env t o p w :
  viewOf (final (dispatch env t o p w)) = viewOf w.
Proof.
  unfold dispatch, viewOf. js_unfold. simpl.
  destruct (isSupported env Desktop); simpl.
  - destruct (agentCreate env Desktop t o); simpl;
      [|destruct (isSupported env Chrome); simpl];
      autorewrite with logs; simpl; rewrite ?app_nil_r; reflexivity.
  - destruct (isSupported env WebKit); simpl;
      [destruct (agentCreate env WebKit t o); simpl;
       autorewrite with logs; simpl; rewrite ?app_nil_r; reflexivity|].
    destruct (isSupported env Firefox); simpl;
      [destruct (agentCreate env Firefox t o); simpl;
       autorewrite with logs; simpl; rewrite ?app_nil_r; reflexivity|].
    destruct (isSupported env MS); simpl;
      [destruct (agentCreate env MS t o); simpl|];
      autorewrite with logs; simpl; rewrite ?app_nil_r; reflexivity.
Qed.

(** A creation with permission granted, served by an agent that returns a
    record, takes the current counter as id and hands out its wrapper. *)
Lemma create_record_view env t o w :
  permissionHas env = true ->
  servesRecord env t o ->
  exists n,
    viewOf (step env (OpCreate (TitleString t) o) w)
    = (S (_currentId w),
       JSObject.set (_currentId w) (JObj n) (_notifications w),
       wrapperIds (log w) ++ [_currentId w]).
Proof.
  intros Hperm Hserve.
  unfold step, uncaught, create, newPromise, _createCallback.
  rewrite Hperm. simpl negb. cbv iota.
  unfold emit at 1, modify at 1. unfold bind at 1. unfold bind at 1.
  set (w1 := set_nextPromise _ _).
  destruct (Hserve (nextPromise (set_log (log w ++ [EvPermissionHas]) w)) w1)
    as [n Hn].
  exists n.
  assert (Hv1 : viewOf w1 = viewOf w).
  { unfold viewOf, w1. simpl. rewrite wrapperIds_app. simpl.
    rewrite app_nil_r. reflexivity. }
  pose proof (dispatch_view env t
                (match o with Some o' => o' | None => noOptions end)
                (nextPromise (set_log (log w ++ [EvPermissionHas]) w)) w1) as Hdv.
  unfold bind at 1. unfold try_catch. unfold bind at 1.
  destruct (dispatch env t _ _ w1) as [v wd|e wd]; simpl in Hn; [|discriminate].
  inversion Hn; subst v. simpl in Hdv.
  pose proof (deliver_view (JObj n)
                (match o with Some o' => o' | None => noOptions end)
                (nextPromise (set_log (log w ++ [EvPermissionHas]) w)) wd) as Hdl.
  simpl in Hdl.
  assert (Hwd : _currentId wd = _currentId w /\ _notifications wd = _notifications w
                /\ wrapperIds (log wd) = wrapperIds (log w)).
  { rewrite Hv1 in Hdv. unfold viewOf in Hdv. inversion Hdv. auto. }
  destruct Hwd as [Hc [Hr Hi]]. rewrite Hc, Hr, Hi in Hdl.
  destruct (deliver (JObj n) _ _ wd) as [u w'|e w']; simpl in Hdl |- *.
  - exact Hdl.
  - unfold reject, emit, modify. simpl.
    unfold viewOf in *. simpl. rewrite !wrapperIds_app. simpl.
    rewrite !app_nil_r. exact Hdl.
Qed.

Lemma creations_view ops :
  Forall recordCreation ops ->
  forall w,
    JSObject.below (_currentId w) (_notifications w) ->
    _currentId (run ops w) = _currentId w + List.length ops
    /\ wrapperIds (log (run ops w))
       = wrapperIds (log w) ++ seq (_currentId w) (List.length ops)
    /\ JSObject.keys (_notifications (run ops w))
       = JSObject.keys (_notifications w) ++ seq (_currentId w) (List.length ops).
Proof.
  induction 1 as [|[env op] ops [t [o [Hop [Hperm Hserve]]]] _ IH]; intros w Hb.
  - simpl. rewrite Nat.add_0_r, !app_nil_r. auto.
  - simpl in Hop, Hperm, Hserve. subst op.
    change (run ((env, OpCreate (TitleString t) o) :: ops) w)
      with (run ops (step env (OpCreate (TitleString t) o) w)).
    change (List.length ((env, OpCreate (TitleString t) o) :: ops))
      with (S (List.length ops)).
    destruct (create_record_view env t o w Hperm Hserve) as [n Hview].
    set (w1 := step env (OpCreate (TitleString t) o) w) in *.
    unfold viewOf in Hview. inversion Hview as [[Hc Hr Hi]]. clear Hview.
    assert (Hb1 : JSObject.below (_currentId w1) (_notifications w1))
      by (rewrite Hc, Hr; apply below_set, Hb).
    destruct (IH w1 Hb1) as [IHc [IHi IHk]].
    rewrite IHc, IHi, IHk, Hc, Hr, Hi.
    rewrite (set_below _ _ _ Hb), keys_app. simpl.
    repeat rewrite <- app_assoc. simpl.
    repeat split; try reflexivity; lia.
Qed.

Lemma dispatch_desktop_throws env t o p w e :
  isSupported env Desktop = true ->
  agentCreate env Desktop t o = Throws e ->
  returned (dispatch env t o p w) = Some JNull.
Proof.
  intros Hd He. unfold dispatch. js_unfold. simpl. rewrite Hd, He. simpl.
  destruct (isSupported env Chrome); reflexivity.
Qed.

(** C7 does not hold as stated: on the Service-Worker path no id is
    allocated at create time. After [create] on Chrome for Android the
    counter is still 0 and the registry is empty, and a second [create]
    hands the worker the same id argument; the ids are allocated when the
    list callbacks fire, in the order they fire (here the second request
    is answered first and gets id 0). On Firefox mobile no id is
    allocated at all. *)
Lemma worker_id_allocated_after_create :
  let w1 := step mobileChromeWindow (OpCreate (TitleString "x") None) newPush in
  let w2 := step mobileChromeWindow (OpCreate (TitleString "y") None) w1 in
  let w3 := run (workerSignals mobileChromeWindow 1 [record 11 "y"]) w2 in
  let w4 := run (workerSignals mobileChromeWindow 0 [record 11 "y"; record 10 "x"]) w3 in
  let wf := step (firefoxWindow (record 12 "z")) (OpCreate (TitleString "z") None) newPush in
  _currentId w1 = 0
  /\ _notifications w1 = []
  /\ _currentId w2 = 0
  /\ map sw_id (swRequests w2) = [0; 0]
  /\ _currentId w3 = 1
  /\ _notifications w3 = [(0, record 11 "y")]
  /\ _currentId w4 = 2
  /\ _notifications w4 = [(0, record 11 "y"); (1, record 10 "x")]
  /\ _currentId wf = 0
  /\ _notifications wf = [].
Proof. vm_compute. repeat split. Qed.

(** C7, as the code has it. Ids start at 0 and only go up.
    [_addNotification] returns the current counter, stores the value under
    it and increments the counter; no operation ever lowers the counter.
    An id is allocated when a notification is registered: within [create]
    for a synchronous agent whose record is kept, and when the worker's
    list callback fires on the Service-Worker path, where [create] itself
    allocates nothing. In every state reachable from a new instance, by
    any operations in any environments (closures and removals included),
    the ids of the wrappers handed out so far are strictly ascending, each
    is below the counter, and so is every key of the registry: an id that
    has left the registry is never allocated again. And N creations
    served with a record, with nothing closed in between, hand out the ids
    0, 1, ..., N-1 and leave exactly those keys in the registry. *)
Theorem ids_ascend_and_are_never_reused :
  _currentId newPush = 0
  /\ (forall v w,
        returned (_addNotification v w) = Some (_currentId w)
        /\ _currentId (final (_addNotification v w)) = S (_currentId w)
        /\ (JSObject.below (_currentId w) (_notifications w) ->
            _notifications (final (_addNotification v w))
            = _notifications w ++ [(_currentId w, v)]))
  /\ (forall env op w, _currentId w <= _currentId (step env op w))
  /\ (forall ops,
        let w := run ops newPush in
        StronglySorted lt (wrapperIds (log w))
        /\ Forall (fun i => i < _currentId w) (wrapperIds (log w))
        /\ JSObject.below (_currentId w) (_notifications w)
        /\ StronglySorted lt (JSObject.keys (_notifications w)))
  /\ (forall ops,
        Forall recordCreation ops ->
        let w := run ops newPush in
        wrapperIds (log w) = seq 0 (List.length ops)
        /\ JSObject.keys (_notifications w) = seq 0 (List.length ops)
        /\ _currentId w = List.length ops)
  /\ (forall env t o p w e,
        isSupported env Desktop = true ->
        agentCreate env Desktop t o = Throws e ->
        viewOf (final (_createCallback env t (Some o) p w)) = viewOf w)
  /\ (forall o p ns w,
        viewOf (final (serviceWorkerCallback o p ns w))
        = (S (_currentId w),
           JSObject.set (_currentId w) (last ns JUndefined) (_notifications w),
           wrapperIds (log w) ++ [_currentId w])).
Proof.
  split; [reflexivity|]. split; [|split; [|split; [|split; [|split]]]].
  - intros v w. split; [reflexivity|]. split; [reflexivity|].
    intros Hb. simpl. apply set_below, Hb.
  - intros env op w.
    exact (grows_counter _ _ (step_grows env op w)).
  - intros ops w. subst w.
    pose proof (grows_keeps_invariant 0 _ _ (run_grows ops newPush)
                  newPush_invariant) as H.
    unfold InvView, viewOf in H. tauto.
  - intros ops Hops w. subst w.
    destruct (creations_view ops Hops newPush) as [Hc [Hi Hk]].
    + constructor.
    + simpl in *. auto.
  - intros env t o p w e Hd He.
    unfold _createCallback, bind.
    pose proof (dispatch_view env t o p w) as Hv.
    pose proof (dispatch_desktop_throws env t o p w e Hd He) as Hr.
    destruct (dispatch env t o p w) as [v wd|e' wd]; simpl in Hr; [|discriminate].
    inversion Hr; subst v. simpl in Hv.
    rewrite (deliver_view JNull o p wd). exact Hv.
  - intros o p ns w. apply serviceWorkerCallback_view.
Qed.

(** Three desktop creations in a row. *)
Lemma ids_ascend_and_are_never_reused_witness :
  let ops := [ (desktopWindow (record 10 "a"), OpCreate (TitleString "x") None);
               (desktopWindow (record 11 "b"), OpCreate (TitleString "y") None);
               (desktopWindow (record 12 "a"), OpCreate (TitleString "z") (Some noOptions)) ] in
  Forall recordCreation ops
  /\ wrapperIds (log (run ops newPush)) = [0; 1; 2]
  /\ JSObject.keys (_notifications (run ops newPush)) = [0; 1; 2].
Proof.
  intros ops.
  assert (Hops : Forall recordCreation ops).
  { repeat constructor; eexists; eexists;
      (split; [reflexivity|]); (split; [reflexivity|]);
      intros p w; eexists; reflexivity. }
  split; [exact Hops|].
  destruct ids_ascend_and_are_never_reused as [_ [_ [_ [_ [H _]]]]].
  destruct (H ops Hops) as [Hi [Hk _]].
  split; [exact Hi | exact Hk].
Defined.

(** ** What a creation does to its promise *)

(** [dispatch] never calls [resolve] or [reject]. *)
Lemma dispatch_settles env t o p w :
  exists evs,
    log (final (dispatch env t o p w)) = log w ++ evs
    /\ (forall q s, settleAll q s evs = (s, 0))
    /\ permissionRequests evs = [].
Proof.
  unfold dispatch. js_unfold. simpl.
  destruct (isSupported env Desktop); simpl.
  - destruct (agentCreate env Desktop t o); simpl;
      [|destruct (isSupported env Chrome); simpl];
      eexists; (split; [repeat rewrite <- app_assoc; reflexivity|]);
      (split; [intros q [| |]; reflexivity | reflexivity]).
  - destruct (isSupported env WebKit); simpl;
      [destruct (agentCreate env WebKit t o); simpl;
       eexists; (split; [repeat rewrite <- app_assoc; reflexivity|]);
       (split; [intros q [| |]; reflexivity | reflexivity])|].
    destruct (isSupported env Firefox); simpl;
      [destruct (agentCreate env Firefox t o); simpl;
       eexists; (split; [repeat rewrite <- app_assoc; reflexivity|]);
       (split; [intros q [| |]; reflexivity | reflexivity])|].
    destruct (isSupported env MS); simpl;
      [destruct (agentCreate env MS t o); simpl|];
      eexists; (split; [repeat rewrite <- app_assoc; reflexivity|]);
      (split; [intros q [| |]; reflexivity | reflexivity]).
Qed.

(** [deliver] resolves with the wrapper of the new id for a record, with
    the empty handle for [null]; on any value that cannot take listeners
    it throws before any call to [resolve]. *)
Lemma deliver_settles v o p w :
  exists evs,
    log (final (deliver v o p w)) = log w ++ evs
    /\ permissionRequests evs = []
    /\ match v with
       | JNull =>
           thrown (deliver v o p w) = None
           /\ settleAll p Pending evs = (Resolved EmptyHandle, 1)
       | JObj _ =>
           thrown (deliver v o p w) = None
           /\ settleAll p Pending evs = (Resolved (Wrapper (_currentId w)), 1)
       | JUndefined =>
           thrown (deliver v o p w) = Some (TypeErrorObj "addEventListener")
           /\ settleAll p Pending evs = (Pending, 0)
       end.
Proof.
  destruct o as [to os oe oc ocl ln].
  destruct v; destruct to as [[|d]|]; destruct os, oe, oc;
    unfold deliver, _prepareNotification, addUserListener, addEventListener,
      _addNotification;
    js_unfold; simpl;
    eexists; (split; [repeat rewrite <- app_assoc; try reflexivity;
                      symmetry; apply app_nil_r|]);
    simpl; rewrite ?Nat.eqb_refl; auto.
Qed.

(** A settled promise stays as it is, whatever is called on it later. *)
Lemma settleAll_settled p s l : s <> Pending -> settleAll p s l = (s, 0).
Proof.
  revert s. induction l as [|ev l IH]; intros s Hs; simpl; [reflexivity|].
  assert (E : settle p s ev = (s, false))
    by (destruct s; [congruence | reflexivity | reflexivity]).
  rewrite E, (IH s Hs). reflexivity.
Qed.

Lemma settle_pending p ev took :
  settle p Pending ev = (Pending, took) -> took = false.
Proof.
  destruct ev; simpl; try (intros E; inversion E; reflexivity);
    destruct (Nat.eqb promise p); intros E; inversion E; reflexivity.
Qed.

Lemma settleAll_cons p s ev l :
  settleAll p s (ev :: l)
  = (fst (settleAll p (fst (settle p s ev)) l),
     if snd (settle p s ev)
     then S (snd (settleAll p (fst (settle p s ev)) l))
     else snd (settleAll p (fst (settle p s ev)) l)).
Proof.
  simpl. destruct (settle p s ev) as [s' took]. simpl.
  destruct (settleAll p s' l). reflexivity.
Qed.

Lemma settleAll_pending_count p l :
  fst (settleAll p Pending l) = Pending -> snd (settleAll p Pending l) = 0.
Proof.
  induction l as [|ev l IH]; [reflexivity|].
  rewrite settleAll_cons. cbn [fst snd].
  destruct (settle p Pending ev) as [s took] eqn:E. cbn [fst snd].
  destruct s.
  - apply settle_pending in E. subst took. exact IH.
  - rewrite settleAll_settled by discriminate. simpl. discriminate.
  - rewrite settleAll_settled by discriminate. simpl. discriminate.
Qed.

Lemma promise_after p w w' evs s n :
  log w' = log w ++ evs ->
  promiseState p w = Pending ->
  settleAll p Pending evs = (s, n) ->
  promiseState p w' = s /\ effectiveSettlements p w' = n.
Proof.
  unfold promiseState, effectiveSettlements. intros Hlog Hpend Hevs.
  rewrite Hlog, settleAll_app.
  rewrite (settleAll_pending_count _ _ Hpend), Hpend, Hevs. auto.
Qed.

(** How the future of a creation ends, by what the agent selection
    yields: rejected with what it throws; resolved with the empty handle
    when it leaves [null]; resolved with the wrapper of the new id when it
    leaves a record. In each case exactly one call takes effect. *)
Lemma executor_settles env t o p w :
  promiseState p w = Pending ->
  let opts := match o with Some o' => o' | None => noOptions end in
  let w' := final (executor env t o p w) in
  effectiveSettlements p w' = 1
  /\ permissionRequests (log w') = permissionRequests (log w)
  /\ promiseState p w'
     = match dispatch env t opts p w with
       | Throw e _ => Rejected e
       | Ok JNull _ => Resolved EmptyHandle
       | Ok (JObj _) _ => Resolved (Wrapper (_currentId w))
       | Ok JUndefined _ => Rejected (TypeErrorObj "addEventListener")
       end.
Proof.
  intros Hpend opts w'. subst w'.
  unfold executor, _createCallback, try_catch. fold opts. unfold bind.
  destruct (dispatch_settles env t opts p w) as [evs1 [Hlog1 [Hq1 Hp1]]].
  pose proof (dispatch_view env t opts p w) as Hview.
  destruct (dispatch env t opts p w) as [v wd|e wd]; simpl in Hlog1, Hview.
  - destruct (deliver_settles v opts p wd) as [evs2 [Hlog2 [Hp2 Hs2]]].
    assert (Hc : _currentId wd = _currentId w)
      by (unfold viewOf in Hview; inversion Hview; reflexivity).
    rewrite Hc in Hs2.
    assert (Hfull : forall s n, settleAll p Pending evs2 = (s, n) ->
                                settleAll p Pending (evs1 ++ evs2) = (s, n)).
    { intros s n E. rewrite settleAll_app, Hq1. simpl. rewrite E. reflexivity. }
    destruct v; destruct Hs2 as [Hthrown Hset];
      destruct (deliver _ opts p wd) as [u w2|e w2]; simpl in Hthrown, Hlog2;
      try discriminate; simpl.
    + destruct (promise_after p w w2 (evs1 ++ evs2) _ _
                  ltac:(rewrite Hlog2, Hlog1, app_assoc; reflexivity)
                  Hpend (Hfull _ _ Hset)) as [H1 H2].
      rewrite Hlog2, Hlog1. autorewrite with logs. rewrite Hp1, Hp2, !app_nil_r.
      auto.
    + inversion Hthrown; subst e.
      destruct (promise_after p w
                  (set_log (log w2 ++ [EvReject p (TypeErrorObj "addEventListener")]) w2)
                  (evs1 ++ evs2 ++ [EvReject p (TypeErrorObj "addEventListener")])
                  (Rejected (TypeErrorObj "addEventListener")) 1) as [H1 H2].
      * simpl. rewrite Hlog2, Hlog1. repeat rewrite <- app_assoc. reflexivity.
      * exact Hpend.
      * rewrite settleAll_app, Hq1. simpl. rewrite settleAll_app, Hset. simpl.
        rewrite Nat.eqb_refl. reflexivity.
      * unfold reject, emit, modify. simpl final.
        split; [exact H2|]. split; [|exact H1].
        simpl. rewrite Hlog2, Hlog1. autorewrite with logs.
        rewrite Hp1, Hp2. simpl. rewrite !app_nil_r. reflexivity.
    + destruct (promise_after p w w2 (evs1 ++ evs2) _ _
                  ltac:(rewrite Hlog2, Hlog1, app_assoc; reflexivity)
                  Hpend (Hfull _ _ Hset)) as [H1 H2].
      rewrite Hlog2, Hlog1. autorewrite with logs. rewrite Hp1, Hp2, !app_nil_r.
      auto.
  - destruct (promise_after p w (set_log (log wd ++ [EvReject p e]) wd)
                (evs1 ++ [EvReject p e]) (Rejected e) 1) as [H1 H2].
    + simpl. rewrite Hlog1, app_assoc. reflexivity.
    + exact Hpend.
    + rewrite settleAll_app, Hq1. simpl. rewrite Nat.eqb_refl. reflexivity.
    + unfold reject, emit, modify. simpl final.
      split; [exact H2|]. split; [|exact H1].
      simpl. rewrite Hlog1. autorewrite with logs. rewrite Hp1. simpl.
      rewrite !app_nil_r. reflexivity.
Qed.

(** ** The permission gate *)

Lemma findPerm_new p r l :
  findPerm p l = None -> pr_promise r = p -> findPerm p (l ++ [r]) = Some r.
Proof.
  unfold findPerm. intros Hnone Hr.
  induction l as [|r' l IH]; simpl in *.
  - rewrite Hr, Nat.eqb_refl. reflexivity.
  - destruct (Nat.eqb (pr_promise r') p); [discriminate | auto].
Qed.

(** [create] without permission: the request is handed to the gate and
    nothing else happens. *)
Lemma create_requests_permission env t o w :
  permissionHas env = false ->
  create env (TitleString t) o w
  = Ok (nextPromise w)
       (set_permRequests
          (permRequests w
             ++ [{| pr_promise := nextPromise w; pr_title := t; pr_options := o |}])
          (set_log (log w ++ [EvPermissionHas; EvPermissionRequest (nextPromise w)])
             (set_nextPromise (S (nextPromise w)) w))).
Proof.
  intros Hperm. unfold create, newPromise. js_unfold. simpl.
  rewrite Hperm. simpl. rewrite <- app_assoc. reflexivity.
Qed.

Lemma takePerm_found p r w :
  findPerm p (permRequests w) = Some r ->
  takePerm p w = Ok (Some r) (set_permRequests (dropPerm p (permRequests w)) w).
Proof.
  intros H. unfold takePerm. js_unfold. rewrite H. reflexivity.
Qed.

(** C6, as the code has it. A [create] with a string title and without
    permission issues exactly one permission request, asks no agent and
    leaves its future pending. If the request is denied, the future is
    rejected with "Permission request declined", no agent is ever asked
    and the registry and the counter are untouched. If it is granted, the
    promise callback runs and the future ends as the agent selection
    does: rejected with whatever the selection throws (for one, the
    unknown-interface error), resolved otherwise. *)
Theorem permission_requested_once
    (env env' : Env) (t : string) (o : option Options) (w : World)
    (Hperm : permissionHas env = false)
    (Hfresh : promiseState (nextPromise w) w = Pending)
    (Hnone : findPerm (nextPromise w) (permRequests w) = None) :
  let p := nextPromise w in
  let opts := match o with Some o' => o' | None => noOptions end in
  let w1 := final (create env (TitleString t) o w) in
  returned (create env (TitleString t) o w) = Some p
  /\ permissionRequests (log w1) = permissionRequests (log w) ++ [p]
  /\ agentsProbed (log w1) = agentsProbed (log w)
  /\ agentsCreated (log w1) = agentsCreated (log w)
  /\ promiseState p w1 = Pending
  /\ (let w2 := final (permissionDenied p w1) in
      promiseState p w2 = Rejected (StringValue "Permission request declined")
      /\ effectiveSettlements p w2 = 1
      /\ permissionRequests (log w2) = permissionRequests (log w) ++ [p]
      /\ agentsProbed (log w2) = agentsProbed (log w)
      /\ agentsCreated (log w2) = agentsCreated (log w)
      /\ viewOf w2 = viewOf w)
  /\ (let wg := final (takePerm p w1) in
      let w2 := final (permissionGranted env' p w1) in
      w2 = final (executor env' t o p wg)
      /\ permissionRequests (log w2) = permissionRequests (log w) ++ [p]
      /\ effectiveSettlements p w2 = 1
      /\ promiseState p w2
         = match dispatch env' t opts p wg with
           | Throw e _ => Rejected e
           | Ok JNull _ => Resolved EmptyHandle
           | Ok (JObj _) _ => Resolved (Wrapper (_currentId w))
           | Ok JUndefined _ => Rejected (TypeErrorObj "addEventListener")
           end).
Proof.
  intros p opts w1. subst w1.
  rewrite (create_requests_permission env t o w Hperm). fold p. simpl final.
  set (l1 := log w ++ [EvPermissionHas; EvPermissionRequest p]).
  set (w1 := set_permRequests _ _).
  assert (Hl1 : log w1 = l1) by reflexivity.
  assert (Hpend1 : forall wx, log wx = l1 -> promiseState p wx = Pending).
  { intros wx Hl.
    apply (promise_after p w wx [EvPermissionHas; EvPermissionRequest p] Pending 0);
      [exact Hl | exact Hfresh | reflexivity]. }
  split; [reflexivity|].
  split; [rewrite Hl1; unfold l1; autorewrite with logs; reflexivity|].
  split; [rewrite Hl1; unfold l1; autorewrite with logs; simpl; apply app_nil_r|].
  split; [rewrite Hl1; unfold l1; autorewrite with logs; simpl; apply app_nil_r|].
  split; [apply Hpend1; exact Hl1|].
  assert (Htake : takePerm p w1
                  = Ok (Some {| pr_promise := p; pr_title := t; pr_options := o |})
                       (set_permRequests (dropPerm p (permRequests w1)) w1)).
  { apply takePerm_found. unfold w1. simpl.
    apply findPerm_new; [exact Hnone | reflexivity]. }
  set (wg := set_permRequests (dropPerm p (permRequests w1)) w1) in *.
  assert (Hlg : log wg = l1) by reflexivity.
  split.
  - assert (Hd : permissionDenied p w1
                 = Ok tt (set_log (log wg ++ [EvReject p (StringValue "Permission request declined")]) wg)).
    { unfold permissionDenied. unfold bind at 1. rewrite Htake. reflexivity. }
    rewrite Hd. simpl final.
    destruct (promise_after p w
                (set_log (log wg ++ [EvReject p (StringValue "Permission request declined")]) wg)
                ([EvPermissionHas; EvPermissionRequest p]
                   ++ [EvReject p (StringValue "Permission request declined")])
                (Rejected (StringValue "Permission request declined")) 1)
      as [H1 H2].
    + simpl. unfold l1. rewrite <- app_assoc. reflexivity.
    + exact Hfresh.
    + simpl. rewrite Nat.eqb_refl. reflexivity.
    + split; [exact H1|]. split; [exact H2|].
      unfold viewOf. simpl. unfold l1. autorewrite with logs. simpl.
      rewrite ?app_nil_r. auto.
  - rewrite Htake. simpl final.
    assert (Hg : permissionGranted env' p w1 = executor env' t o p wg).
    { unfold permissionGranted. unfold bind at 1. rewrite Htake. reflexivity. }
    rewrite Hg.
    assert (Hpg : promiseState p wg = Pending) by (apply Hpend1; exact Hlg).
    destruct (executor_settles env' t o p wg Hpg) as [Heff [Hreq Hstate]].
    split; [reflexivity|].
    split; [rewrite Hreq, Hlg; unfold l1; autorewrite with logs; reflexivity|].
    split; [exact Heff | exact Hstate].
Qed.

(** C6 does not hold as stated: where no agent is supported, the future
    of a [create] whose permission request is granted fails all the same
    (with the unknown-interface error), so "fails if and only if the
    request is denied" is refuted. *)
Lemma granted_request_still_fails :
  let env := withoutPermission bareWindow in
  permissionHas env = false
  /\ permissionRequests (log (gateRun env true)) = [0]
  /\ promiseState 0 (gateRun env true)
     = Rejected (ErrorObj (unknown_interface someMessages))
  /\ ~ (forall granted, failed 0 (gateRun env granted) = true <-> granted = false).
Proof.
  intros env. split; [reflexivity|]. split; [vm_compute; reflexivity|].
  split; [vm_compute; reflexivity|].
  intros H. destruct (H true) as [H1 _].
  assert (E : failed 0 (gateRun env true) = true) by (vm_compute; reflexivity).
  specialize (H1 E). discriminate.
Qed.

(** A desktop browser without permission yet: one request; on denial the
    future is rejected, on grant it is resolved with the wrapper of id 0. *)
Lemma permission_requested_once_witness :
  let env := withoutPermission (desktopWindow (record 10 "a")) in
  let w1 := final (create env (TitleString "x") None newPush) in
  permissionHas env = false
  /\ promiseState (nextPromise newPush) newPush = Pending
  /\ findPerm (nextPromise newPush) (permRequests newPush) = None
  /\ permissionRequests (log w1) = [0]
  /\ promiseState 0 (final (permissionDenied 0 w1))
     = Rejected (StringValue "Permission request declined")
  /\ promiseState 0 (final (permissionGranted env 0 w1)) = Resolved (Wrapper 0).
Proof.
  intros env w1.
  destruct (permission_requested_once env env "x" None newPush
              eq_refl eq_refl eq_refl)
    as [_ [Hreq [_ [_ [_ [[Hden _] [_ [_ [_ Hgr]]]]]]]]].
  split; [reflexivity|]. split; [reflexivity|]. split; [reflexivity|].
  split; [exact Hreq|]. split; [exact Hden | exact Hgr].
Defined.


(** ** Creations that end with the empty handle *)

(** C1 (the code departs from it). On Chrome for Android the desktop
    agent throws and the Service-Worker agent takes over: [create] falls
    through to [resolve({})] at once, so the future is resolved with the
    empty handle although a notification is produced; when the worker
    later delivers the record, the callback registers it under id 0 and
    calls [resolve] with its wrapper, which has no effect any more. *)
Theorem worker_creation_resolves_empty :
  let w1 := step mobileChromeWindow (OpCreate (TitleString "x") None) newPush in
  let w2 := run (workerSignals mobileChromeWindow 0 [record 11 "a"]) w1 in
  promiseState 0 w1 = Resolved EmptyHandle
  /\ effectiveSettlements 0 w1 = 1
  /\ _notifications w1 = []
  /\ _notifications w2 = [(0, record 11 "a")]
  /\ resolveCalls 0 (log w2) = [EmptyHandle; Wrapper 0]
  /\ promiseState 0 w2 = Resolved EmptyHandle
  /\ effectiveSettlements 0 w2 = 1
  /\ returned (wrapperGet (Wrapper 0) w2) = Some (record 11 "a")
  /\ thrown (wrapperGet EmptyHandle w2)
     = Some (TypeErrorObj "get is not a function").
Proof. vm_compute. repeat split. Qed.

(** C4 (the code departs from it). On Firefox mobile the agent's [create]
    returns a native record, but [_createCallback] does not keep the
    returned value: no id is allocated, nothing is stored, no listener is
    attached and the future is resolved with the empty handle. The same
    call on legacy WebKit, whose result is kept, allocates id 0, stores
    the record, attaches the listeners and resolves with the wrapper. *)
Theorem firefox_record_is_dropped :
  let r := record 10 "a" in
  let n := {| nid := 10; tag := "a" |} in
  let w1 := step (firefoxWindow r) (OpCreate (TitleString "x") (Some withCallbacks)) newPush in
  let w2 := step (window (only WebKit) (fun _ => Returns r))
                 (OpCreate (TitleString "x") (Some withCallbacks)) newPush in
  agentCreate (firefoxWindow r) Firefox "x" withCallbacks = Returns r
  /\ agentsCreated (log w1) = [Firefox]
  /\ _currentId w1 = 0
  /\ _notifications w1 = []
  /\ listeners w1 = []
  /\ promiseState 0 w1 = Resolved EmptyHandle
  /\ agentsCreated (log w2) = [WebKit]
  /\ _currentId w2 = 1
  /\ _notifications w2 = [(0, r)]
  /\ listeners w2
     = [ (n, "show", UserListener {| cb_name := "shown" |});
         (n, "error", UserListener {| cb_name := "failed" |});
         (n, "click", UserListener {| cb_name := "clicked" |});
         (n, "close", OnCloseListener 0 None);
         (n, "cancel", OnCloseListener 0 None) ]
  /\ promiseState 0 w2 = Resolved (Wrapper 0).
Proof. vm_compute. repeat split. Qed.

(** C3 does not hold as stated: with the desktop agent unsupported and
    only the Service-Worker agent supported, [create("x", {})] never
    reaches that agent; its future is rejected with the unknown-interface
    error, no worker request exists, and the worker's signals change
    nothing. *)
Lemma worker_not_reached_without_desktop :
  let w1 := step workerOnlyWindow (OpCreate (TitleString "x") (Some noOptions)) newPush in
  let w2 := run (workerSignals workerOnlyWindow 0 [record 11 "a"]) w1 in
  isSupported workerOnlyWindow Desktop = false
  /\ isSupported workerOnlyWindow Chrome = true
  /\ agentsCreated (log w1) = []
  /\ swRequests w1 = []
  /\ promiseState 0 w1 = Rejected (ErrorObj (unknown_interface someMessages))
  /\ promiseState 0 w2 = Rejected (ErrorObj (unknown_interface someMessages))
  /\ resolveCalls 0 (log w2) = []
  /\ _notifications w2 = [].
Proof. vm_compute. repeat split. Qed.

(** ** The Service-Worker path *)

Lemma get_set_same {V} k (v : V) o : JSObject.get k (JSObject.set k v o) = Some v.
Proof.
  induction o as [|[k' v'] o IH]; simpl.
  - rewrite Nat.eqb_refl. reflexivity.
  - destruct (Nat.eqb k k') eqn:E; simpl.
    + rewrite Nat.eqb_refl. reflexivity.
    + destruct (Nat.ltb k k'); simpl.
      * rewrite Nat.eqb_refl. reflexivity.
      * rewrite E. exact IH.
Qed.

Lemma resolveCalls_app p l l' :
  resolveCalls p (l ++ l') = resolveCalls p l ++ resolveCalls p l'.
Proof.
  induction l as [|ev l IH]; simpl; [reflexivity|].
  destruct ev; simpl; try exact IH.
  destruct (Nat.eqb promise p); simpl; rewrite IH; reflexivity.
Qed.

Lemma findSW_stageSW p st l r :
  findSW p l = Some r -> findSW p (stageSW p st l) = Some (restage r st).
Proof.
  unfold findSW, stageSW. induction l as [|r' l IH]; simpl; [discriminate|].
  destruct (Nat.eqb (sw_promise r') p) eqn:E; simpl.
  - intros H. inversion H; subst. rewrite E. reflexivity.
  - rewrite E. exact IH.
Qed.

Lemma findSW_dropSW p l : findSW p (dropSW p l) = None.
Proof.
  unfold findSW, dropSW. induction l as [|r l IH]; simpl; [reflexivity|].
  destruct (Nat.eqb (sw_promise r) p) eqn:E; simpl; [exact IH|].
  rewrite E. exact IH.
Qed.

(** The callback's own calls: one [resolve], with the wrapper of the id
    it has just allocated. *)
Lemma serviceWorkerCallback_log o p ns w :
  exists w' evs,
    serviceWorkerCallback o p ns w = Ok tt w'
    /\ log w' = log w ++ evs
    /\ resolveCalls p evs = [Wrapper (_currentId w)]
    /\ swRequests w' = swRequests w.
Proof.
  destruct o as [to os oe oc ocl ln].
  destruct to as [[|d]|];
    unfold serviceWorkerCallback, _prepareNotification, _addNotification;
    js_unfold; simpl;
    eexists; eexists; (split; [reflexivity|]); simpl;
    (split; [repeat rewrite <- app_assoc; reflexivity|]);
    simpl; rewrite Nat.eqb_refl; auto.
Qed.

(** The three signals on a request that waits for [ready]: only the
    third one runs the callback. *)
Lemma worker_signals_run_callback env p ns r w :
  findSW p (swRequests w) = Some r ->
  sw_stage r = AwaitReady ->
  let w3 := run (workerSignals env p ns) w in
  viewOf w3
  = (S (_currentId w),
     JSObject.set (_currentId w) (last ns JUndefined) (_notifications w),
     wrapperIds (log w) ++ [_currentId w])
  /\ resolveCalls p (log w3) = resolveCalls p (log w) ++ [Wrapper (_currentId w)]
  /\ findSW p (swRequests w3) = None.
Proof.
  intros Hfind Hstage w3. subst w3. unfold workerSignals, run, step.
  (* ready *)
  assert (H1 : uncaught (swReady p) w
               = set_swRequests (stageSW p AwaitShown (swRequests w))
                   (set_log (log w ++ [EvSWShowNotification (sw_title r) (sw_id r)]) w)).
  { unfold uncaught, swReady. js_unfold. rewrite Hfind, Hstage. reflexivity. }
  rewrite H1. set (w1 := set_swRequests _ _).
  assert (Hf1 : findSW p (swRequests w1) = Some (restage r AwaitShown))
    by (apply findSW_stageSW, Hfind).
  (* displayed *)
  assert (H2 : uncaught (swShown p) w1
               = set_swRequests (stageSW p AwaitList (swRequests w1))
                   (set_log (log w1 ++ [EvSWGetNotifications]) w1)).
  { unfold uncaught, swShown. js_unfold. rewrite Hf1. reflexivity. }
  rewrite H2. set (w2 := set_swRequests _ _).
  assert (Hf2 : findSW p (swRequests w2) = Some (restage (restage r AwaitShown) AwaitList))
    by (apply findSW_stageSW, Hf1).
  (* the list *)
  set (wl := set_log (log w2 ++ [EvSWPostMessage])
               (set_swRequests (dropSW p (swRequests w2)) w2)).
  destruct (serviceWorkerCallback_log (sw_options r) p ns wl)
    as [w' [evs [Hrun [Hlog [Hres Hreqs]]]]].
  assert (H3 : uncaught (swList p ns) w2 = w').
  { assert (E : swList p ns w2 = serviceWorkerCallback (sw_options r) p ns wl).
    { unfold swList. unfold bind at 1, gets at 1. rewrite Hf2. reflexivity. }
    unfold uncaught. rewrite E, Hrun. reflexivity. }
  rewrite H3.
  pose proof (serviceWorkerCallback_view (sw_options r) p ns wl) as Hview.
  rewrite Hrun in Hview. simpl final in Hview.
  split; [|split].
  - rewrite Hview. unfold wl, w2, w1. simpl.
    autorewrite with logs. simpl. rewrite !app_nil_r. reflexivity.
  - rewrite Hlog. unfold wl, w2, w1. simpl.
    rewrite !resolveCalls_app, Hres. simpl. rewrite !app_nil_r. reflexivity.
  - rewrite Hreqs. unfold wl. simpl. apply findSW_dropSW.
Qed.

(** Before the display has succeeded, the list signal does nothing. *)
Lemma swList_waits p ns r w :
  findSW p (swRequests w) = Some r ->
  sw_stage r <> AwaitList ->
  swList p ns w = Ok tt w.
Proof.
  intros Hfind Hstage. unfold swList. js_unfold. rewrite Hfind.
  destruct (sw_stage r); [reflexivity | reflexivity | congruence].
Qed.

(** C3, as the code has it. The Service-Worker agent is reached only
    through the desktop agent. When the desktop agent is not supported,
    the agent selection never calls the Service-Worker agent, whether it
    is supported or not: no worker request is made and the creating agent
    is the first supported one among WebKit, Firefox-mobile and IE, if
    any. When the desktop agent is supported, its [create] throws and the
    Service-Worker agent is supported, a worker request is made with the
    current counter as id. For such a request the callback does not run
    before the worker-ready and display-success signals; once both have
    fired, the list signal makes it store the last entry of the worker's
    list under a new id and call [resolve] with the wrapper of that id,
    whose [get()] returns that entry. *)
Theorem worker_reached_only_through_desktop
    (env envw : Env) (t : string) (o : Options) (p : nat) (w : World) :
  (isSupported env Desktop = false ->
     swRequests (final (dispatch env t o p w)) = swRequests w
     /\ agentsCreated (log (final (dispatch env t o p w)))
        = agentsCreated (log w)
          ++ match firstSupported (isSupported env) [WebKit; Firefox; MS] with
             | Some a => [a]
             | None => []
             end)
  /\ (isSupported env Desktop = true ->
      isSupported env Chrome = true ->
      forall e, agentCreate env Desktop t o = Throws e ->
        returned (dispatch env t o p w) = Some JNull
        /\ swRequests (final (dispatch env t o p w))
           = swRequests w
             ++ [{| sw_promise := p; sw_id := _currentId w; sw_title := t;
                    sw_options := o; sw_path := _configuration w;
                    sw_stage := AwaitReady |}])
  /\ (forall r ns,
        findSW p (swRequests w) = Some r ->
        sw_stage r = AwaitReady ->
        let wr := step envw (OpSWReady p) w in
        let w3 := run (workerSignals envw p ns) w in
        swList p ns w = Ok tt w
        /\ swList p ns wr = Ok tt wr
        /\ _currentId w3 = S (_currentId w)
        /\ resolveCalls p (log w3)
           = resolveCalls p (log w) ++ [Wrapper (_currentId w)]
        /\ returned (wrapperGet (Wrapper (_currentId w)) w3)
           = Some (last ns JUndefined)).
Proof.
  split; [|split].
  - intros Hd. unfold dispatch, firstSupported. js_unfold. simpl. rewrite Hd.
    destruct (isSupported env WebKit); simpl.
    { destruct (agentCreate env WebKit t o); js_logs; auto. }
    destruct (isSupported env Firefox); simpl.
    { destruct (agentCreate env Firefox t o); js_logs; auto. }
    destruct (isSupported env MS); simpl.
    { destruct (agentCreate env MS t o); js_logs; auto. }
    js_logs. auto.
  - intros Hd Hc e He. unfold dispatch. js_unfold. simpl.
    rewrite Hd, He. simpl. rewrite Hc. simpl. auto.
  - intros r ns Hfind Hstage wr w3.
    split; [apply (swList_waits p ns r w Hfind); rewrite Hstage; discriminate|].
    split.
    + assert (Hwr : wr = set_swRequests (stageSW p AwaitShown (swRequests w))
                           (set_log (log w ++ [EvSWShowNotification (sw_title r) (sw_id r)]) w)).
      { unfold wr, step, uncaught, swReady. js_unfold. rewrite Hfind, Hstage.
        reflexivity. }
      apply (swList_waits p ns (restage r AwaitShown)); [|discriminate].
      rewrite Hwr. simpl. apply findSW_stageSW, Hfind.
    + destruct (worker_signals_run_callback envw p ns r w Hfind Hstage)
        as [Hview [Hres _]].
      fold w3 in Hview, Hres. unfold viewOf in Hview.
      inversion Hview as [[Hc Hr Hi]].
      split; [reflexivity|]. split; [exact Hres|].
      unfold wrapperGet, gets, lookup. simpl. rewrite Hr, get_set_same.
      reflexivity.
Qed.

(** Chrome on Android: the request is made, and after the three signals
    the handle built by the callback returns the last record of the
    worker's list. *)
Lemma worker_reached_only_through_desktop_witness :
  let w1 := final (dispatch mobileChromeWindow "x" noOptions 0 newPush) in
  let w3 := run (workerSignals mobileChromeWindow 0 [record 10 "b"; record 11 "a"]) w1 in
  isSupported workerOnlyWindow Desktop = false
  /\ swRequests (final (dispatch workerOnlyWindow "x" noOptions 0 newPush)) = []
  /\ findSW 0 (swRequests w1)
     = Some {| sw_promise := 0; sw_id := 0; sw_title := "x";
               sw_options := noOptions; sw_path := "./serviceWorker.js";
               sw_stage := AwaitReady |}
  /\ returned (wrapperGet (Wrapper 0) w3) = Some (record 11 "a").
Proof.
  intros w1 w3.
  destruct (worker_reached_only_through_desktop
              workerOnlyWindow workerOnlyWindow "x" noOptions 0 newPush)
    as [Hoff _].
  destruct (worker_reached_only_through_desktop
              mobileChromeWindow mobileChromeWindow "x" noOptions 0 w1)
    as [_ [_ Hsig]].
  split; [reflexivity|].
  split; [exact (proj1 (Hoff eq_refl))|].
  split; [reflexivity|].
  exact (proj2 (proj2 (proj2 (proj2
           (Hsig _ [record 10 "b"; record 11 "a"] eq_refl eq_refl))))).
Defined.

(** ** Callback bodies and the worker's payload *)

Section CallbackBodies.
Import MobileChromeAgent.

Lemma dropPrefix_app p s : dropPrefix p (p ++ s)%string = Some s.
Proof.
  induction p as [|a p IH]; simpl; [reflexivity|].
  rewrite Ascii.eqb_refl. exact IH.
Qed.

Lemma dropPrefix_Some p s r : dropPrefix p s = Some r -> s = (p ++ r)%string.
Proof.
  revert s. induction p as [|a p IH]; intros s; simpl.
  - intros H. inversion H. reflexivity.
  - destruct s as [|b s]; [discriminate|].
    destruct (Ascii.eqb_spec a b) as [->|]; [|discriminate].
    intros H. f_equal. apply IH, H.
Qed.

Lemma occurs_cons p c s :
  occurs p (String c s)
  = match dropPrefix p (String c s) with
    | Some _ => true
    | None => occurs p s
    end.
Proof. reflexivity. Qed.

Lemma occurs_brace_cons c s :
  occurs "{" (String c s) = if Ascii.eqb c "{"%char then true else occurs "{" s.
Proof.
  rewrite occurs_cons.
  change (dropPrefix "{" (String c s))
    with (if Ascii.eqb "{"%char c then Some s else None).
  destruct (Ascii.eqb_spec c "{"%char) as [->|Hc]; [reflexivity|].
  destruct (Ascii.eqb_spec "{"%char c); [congruence | reflexivity].
Qed.

Lemma spanNoBrace_head head r :
  occurs "{" head = false ->
  spanNoBrace (head ++ String "{"%char r)%string = (head, String "{"%char r).
Proof.
  induction head as [|c head IH]; intros Hno.
  - reflexivity.
  - rewrite occurs_brace_cons in Hno. simpl.
    destruct (Ascii.eqb c "{"%char); [discriminate|].
    rewrite (IH Hno). reflexivity.
Qed.

Lemma spanNoBrace_split s :
  s = (fst (spanNoBrace s) ++ snd (spanNoBrace s))%string
  /\ occurs "{" (fst (spanNoBrace s)) = false.
Proof.
  induction s as [|c s [IH1 IH2]]; [split; reflexivity|].
  change (spanNoBrace (String c s))
    with (if Ascii.eqb c "{"%char then (EmptyString, String c s)
          else let (run, rest) := spanNoBrace s in (String c run, rest)).
  destruct (Ascii.eqb c "{"%char) eqn:Ec; [split; reflexivity|].
  destruct (spanNoBrace s) as [run rest]. cbn [fst snd] in *.
  split; [cbn [append]; f_equal; exact IH1|].
  rewrite occurs_brace_cons, Ec. exact IH2.
Qed.

Lemma stripClosingBrace_app body :
  stripClosingBrace (body ++ "}")%string = Some body.
Proof.
  induction body as [|c body IH]; simpl; [reflexivity|].
  rewrite IH. destruct (body ++ "}")%string eqn:E; [|reflexivity].
  destruct body; discriminate.
Qed.

Lemma stripClosingBrace_Some s body :
  stripClosingBrace s = Some body -> s = (body ++ "}")%string.
Proof.
  revert body. induction s as [|c s IH]; intros body; simpl; [discriminate|].
  destruct s as [|d s].
  - destruct (Ascii.eqb_spec c "}"%char) as [->|]; [|discriminate].
    intros H. inversion H. reflexivity.
  - destruct (stripClosingBrace (String d s)) as [b|]; simpl; [|discriminate].
    intros H. inversion H. simpl. f_equal. apply IH. reflexivity.
Qed.

Lemma regexGroup_unfold s :
  regexGroup s
  = match matchHere s with
    | Some body => Some body
    | None =>
        match s with
        | EmptyString => None
        | String _ s' => regexGroup s'
        end
    end.
Proof. destruct s; reflexivity. Qed.

(** X1. The text of a function expression with a plain parameter list gives
    back exactly its body: for a text made of the word function, a
    non-empty head without an opening brace, and a body in braces,
    [getFunctionBody] returns the body, whatever the body contains. *)
Theorem getFunctionBody_of_function_text (head body : string) :
  head <> EmptyString ->
  occurs "{" head = false ->
  getFunctionBody ("function" ++ head ++ String "{"%char (body ++ "}"))%string
  = Some body.
Proof.
  intros Hne Hno. unfold getFunctionBody. rewrite regexGroup_unfold.
  assert (Hm : matchHere ("function" ++ head ++ String "{"%char (body ++ "}"))%string
               = Some body).
  { unfold matchHere. rewrite dropPrefix_app, (spanNoBrace_head _ _ Hno).
    destruct head as [|c head]; [congruence|].
    rewrite Ascii.eqb_refl. apply stripClosingBrace_app. }
  rewrite Hm. reflexivity.
Qed.

Lemma getFunctionBody_of_function_text_witness :
  " (e) " <> EmptyString
  /\ occurs "{" " (e) " = false
  /\ getFunctionBody "function (e) { if (e) { window.focus(); } }"
     = Some " if (e) { window.focus(); } ".
Proof.
  split; [discriminate|]. split; [reflexivity|].
  apply (getFunctionBody_of_function_text " (e) " " if (e) { window.focus(); } ");
    [discriminate | reflexivity].
Defined.

(** X2. Whatever [getFunctionBody] returns is what stands between the first
    opening brace after a function keyword and a closing brace that ends
    the text: the text is some prefix, the word function, a non-empty
    head without an opening brace, the body in braces, and nothing
    more. *)
Theorem getFunctionBody_sound (text body : string) :
  getFunctionBody text = Some body ->
  exists pre head,
    text = (pre ++ "function" ++ head ++ String "{"%char (body ++ "}"))%string
    /\ head <> EmptyString
    /\ occurs "{" head = false.
Proof.
  unfold getFunctionBody.
  assert (Hhere : forall s, matchHere s = Some body ->
            exists head,
              s = ("function" ++ head ++ String "{"%char (body ++ "}"))%string
              /\ head <> EmptyString
              /\ occurs "{" head = false).
  { intros s. unfold matchHere.
    destruct (dropPrefix "function" s) as [r|] eqn:Ed; [|discriminate].
    apply dropPrefix_Some in Ed.
    destruct (spanNoBrace_split r) as [Er Hno].
    destruct (spanNoBrace r) as [run rest]. simpl in Er, Hno.
    destruct run as [|c run]; [discriminate|].
    destruct rest as [|d rest]; [discriminate|].
    destruct (Ascii.eqb_spec d "{"%char) as [->|]; [|discriminate].
    intros Hs. apply stripClosingBrace_Some in Hs.
    exists (String c run). split; [|split; [discriminate | exact Hno]].
    rewrite Ed, Er, Hs. reflexivity. }
  induction text as [|c text IH]; rewrite regexGroup_unfold.
  - destruct (matchHere EmptyString) eqn:E; [|discriminate].
    intros H. inversion H; subst.
    destruct (Hhere _ E) as [head [Et Hrest]].
    exists EmptyString, head. split; [exact Et | exact Hrest].
  - destruct (matchHere (String c text)) eqn:E.
    + intros H. inversion H; subst.
      destruct (Hhere _ E) as [head [Et Hrest]].
      exists EmptyString, head. split; [exact Et | exact Hrest].
    + intros H. destruct (IH H) as [pre [head [Et Hrest]]].
      exists (String c pre), head. split; [simpl; f_equal; exact Et | exact Hrest].
Qed.

Lemma getFunctionBody_sound_witness :
  getFunctionBody "var f = function(){ return 1 }" = Some " return 1 "
  /\ exists pre head,
       "var f = function(){ return 1 }"
       = (pre ++ "function" ++ head ++ String "{"%char (" return 1 " ++ "}"))%string
       /\ head <> EmptyString.
Proof.
  split; [reflexivity|].
  destruct (getFunctionBody_sound "var f = function(){ return 1 }" " return 1 " eq_refl)
    as [pre [head [E [Hne _]]]].
  exists pre, head. split; [exact E | exact Hne].
Defined.

(** X3. A callback whose text has no function keyword (an arrow function, a
    method written in shorthand) has no body for the worker:
    [getFunctionBody] returns [null]. *)
Theorem getFunctionBody_without_keyword (text : string) :
  occurs "function" text = false ->
  getFunctionBody text = None.
Proof.
  unfold getFunctionBody. induction text as [|c text IH]; intros Hno.
  - reflexivity.
  - rewrite regexGroup_unfold. rewrite occurs_cons in Hno.
    unfold matchHere.
    destruct (dropPrefix "function" (String c text)); [discriminate|].
    apply IH, Hno.
Qed.

Lemma getFunctionBody_without_keyword_witness :
  occurs "function" "(e) => { window.focus(); }" = false
  /\ getFunctionBody "(e) => { window.focus(); }" = None.
Proof.
  split; [reflexivity|].
  apply getFunctionBody_without_keyword. reflexivity.
Defined.

Lemma getKey_assign k k' v o :
  getKey k (assign k' v o)
  = if String.eqb k k' then Some v else getKey k o.
Proof.
  induction o as [|[a b] o IH]; simpl.
  - reflexivity.
  - destruct (String.eqb_spec k' a) as [->|Hne]; simpl.
    + destruct (String.eqb k a); reflexivity.
    + rewrite IH. destruct (String.eqb_spec k a) as [->|Hka].
      * apply String.eqb_neq in Hne. rewrite String.eqb_sym, Hne. reflexivity.
      * reflexivity.
Qed.

Lemma getKey_notin k o : ~ In k (map fst o) -> getKey k o = None.
Proof.
  induction o as [|[a b] o IH]; simpl; [reflexivity|].
  intros H. destruct (String.eqb_spec k a) as [->|Hne]; [tauto|].
  apply IH. tauto.
Qed.

Lemma getKey_spread k a b :
  NoDup (map fst b) ->
  getKey k (spread a b)
  = match getKey k b with
    | Some v => Some v
    | None => getKey k a
    end.
Proof.
  revert a. induction b as [|[k' v] b IH]; intros a Hnd; simpl; [reflexivity|].
  apply NoDup_cons_iff in Hnd. destruct Hnd as [Hnotin Hnd]. simpl in Hnotin.
  rewrite (IH _ Hnd), getKey_assign.
  destruct (String.eqb_spec k k') as [->|Hne]; [|reflexivity].
  rewrite (getKey_notin k' b Hnotin). reflexivity.
Qed.

(** X4. The payload the worker receives. Without [options.data] it holds
    the id passed to the agent, the link, the origin and the two callback
    bodies (the empty text for a callback that is not a function,
    [null] for a function whose text has no body to extract). With
    [options.data], every key of the user's data holds the user's value,
    the five reserved keys included, and every other key keeps what it
    held. *)
Theorem payload_user_data_wins
    (source : Callback -> string) (origin : string) (id : nat)
    (options : Options) (d : list (string * PayloadValue)) (k : string) :
  NoDup (map fst d) ->
  localData source origin id options None
  = [ ("id", PNumber id);
      ("link", match link options with Some l => PString l | None => PUndefined end);
      ("origin", PString origin);
      ("onClick", callbackBody source (onClick options));
      ("onClose", callbackBody source (onClose options)) ]
  /\ getKey k (localData source origin id options (Some d))
     = match getKey k d with
       | Some v => Some v
       | None => getKey k (localData source origin id options None)
       end.
Proof.
  intros Hnd. split; [reflexivity|].
  unfold localData. apply getKey_spread, Hnd.
Qed.

(** User data that carries its own [id] replaces the notification's. *)
Lemma payload_user_data_wins_witness :
  let d := [("id", PNumber 99); ("campaign", PString "spring")] in
  let source := fun c : Callback => ("function () {" ++ cb_name c ++ "}")%string in
  NoDup (map fst d)
  /\ getKey "id" (localData source "https://example.org/" 3 withCallbacks (Some d))
     = Some (PNumber 99)
  /\ getKey "onClick" (localData source "https://example.org/" 3 withCallbacks (Some d))
     = Some (PString "clicked")
  /\ getKey "onClose" (localData source "https://example.org/" 3 withCallbacks (Some d))
     = Some (PString "").
Proof.
  intros d source.
  assert (Hnd : NoDup (map fst d)).
  { simpl. repeat constructor; simpl; intuition discriminate. }
  split; [exact Hnd|].
  split; [|split].
  - exact (proj2 (payload_user_data_wins source "https://example.org/" 3
                    withCallbacks d "id" Hnd)).
  - exact (proj2 (payload_user_data_wins source "https://example.org/" 3
                    withCallbacks d "onClick" Hnd)).
  - exact (proj2 (payload_user_data_wins source "https://example.org/" 3
                    withCallbacks d "onClose" Hnd)).
Defined.

End CallbackBodies.

(** ** Creation with permission granted *)

Lemma dispatch_frame env t o p w :
  listeners (final (dispatch env t o p w)) = listeners w
  /\ timers (final (dispatch env t o p w)) = timers w
  /\ swMessageListeners (final (dispatch env t o p w)) = swMessageListeners w
  /\ _currentId (final (dispatch env t o p w)) = _currentId w
  /\ _notifications (final (dispatch env t o p w)) = _notifications w.
Proof.
  unfold dispatch. js_unfold. simpl.
  destruct (isSupported env Desktop); simpl.
  - destruct (agentCreate env Desktop t o); simpl;
      [|destruct (isSupported env Chrome); simpl]; auto.
  - destruct (isSupported env WebKit); simpl;
      [destruct (agentCreate env WebKit t o); simpl; auto|].
    destruct (isSupported env Firefox); simpl;
      [destruct (agentCreate env Firefox t o); simpl; auto|].
    destruct (isSupported env MS); simpl;
      [destruct (agentCreate env MS t o); simpl|]; auto.
Qed.

(** What [deliver] does with a record: it never throws. *)
Lemma deliver_record n o p w :
  thrown (deliver (JObj n) o p w) = None
  /\ _currentId (final (deliver (JObj n) o p w)) = S (_currentId w)
  /\ _notifications (final (deliver (JObj n) o p w))
     = JSObject.set (_currentId w) (JObj n) (_notifications w)
  /\ listeners (final (deliver (JObj n) o p w))
     = listeners w ++ attached n (_currentId w) o
  /\ timers (final (deliver (JObj n) o p w))
     = timers w ++ scheduled (_currentId w) o
  /\ swMessageListeners (final (deliver (JObj n) o p w)) = swMessageListeners w.
Proof.
  destruct o as [to os oe oc ocl ln].
  destruct to as [[|d]|]; destruct os, oe, oc;
    unfold deliver, _prepareNotification, addUserListener, addEventListener,
      _addNotification, attached, scheduled;
    js_unfold; simpl; repeat rewrite <- app_assoc; simpl;
    rewrite ?app_nil_r; repeat split; reflexivity.
Qed.

Lemma create_granted env t o w :
  permissionHas env = true ->
  create env (TitleString t) o w
  = (executor env t o (nextPromise w) ;; ret (nextPromise w))
      (set_nextPromise (S (nextPromise w))
         (set_log (log w ++ [EvPermissionHas]) w)).
Proof.
  intros Hperm. unfold create, newPromise, executor. js_unfold. simpl.
  rewrite Hperm. reflexivity.
Qed.

Lemma final_bind_const {A B} (m : M A) (b : B) w :
  final ((m ;; ret b) w) = final (m w).
Proof. unfold bind, ret. destruct (m w); reflexivity. Qed.

Lemma returned_try_catch_reject {B} env t o p (b : B) w :
  returned ((executor env t o p ;; ret b) w) = Some b.
Proof.
  unfold executor, try_catch, bind, reject, emit, modify, ret.
  destruct (_createCallback env t o p w); reflexivity.
Qed.

(** X5. A [create] with a string title and permission granted returns its
    future at once, and by then the future is settled, by exactly one
    call: rejected with what the agent selection throws; resolved with
    the empty handle when the selection leaves [null]; resolved with the
    wrapper of the newly allocated id when it leaves a record; rejected
    with a TypeError when it leaves [undefined]. No permission request is
    issued. *)
Theorem create_settles_exactly_once
    (env : Env) (t : string) (o : option Options) (w : World) :
  permissionHas env = true ->
  promiseState (nextPromise w) w = Pending ->
  let p := nextPromise w in
  let w' := final (create env (TitleString t) o w) in
  let w1 := set_nextPromise (S p) (set_log (log w ++ [EvPermissionHas]) w) in
  returned (create env (TitleString t) o w) = Some p
  /\ effectiveSettlements p w' = 1
  /\ permissionRequests (log w') = permissionRequests (log w)
  /\ promiseState p w'
     = match dispatch env t (optionsOr o) p w1 with
       | Throw e _ => Rejected e
       | Ok JNull _ => Resolved EmptyHandle
       | Ok (JObj _) _ => Resolved (Wrapper (_currentId w))
       | Ok JUndefined _ => Rejected (TypeErrorObj "addEventListener")
       end.
Proof.
  intros Hperm Hfresh p w' w1. subst w'.
  rewrite (create_granted env t o w Hperm). fold p. fold w1.
  split; [apply returned_try_catch_reject|].
  rewrite final_bind_const.
  assert (Hp1 : promiseState p w1 = Pending).
  { destruct (promise_after p w w1 [EvPermissionHas] Pending 0) as [H _];
      [reflexivity | exact Hfresh | reflexivity | exact H]. }
  destruct (executor_settles env t o p w1 Hp1) as [Heff [Hreq Hstate]].
  split; [exact Heff|]. split; [|exact Hstate].
  rewrite Hreq. unfold w1. simpl. autorewrite with logs. simpl.
  apply app_nil_r.
Qed.

Lemma create_settles_exactly_once_witness :
  let env := desktopWindow (record 10 "a") in
  permissionHas env = true
  /\ promiseState (nextPromise newPush) newPush = Pending
  /\ effectiveSettlements 0 (final (create env (TitleString "x") None newPush)) = 1
  /\ promiseState 0 (final (create env (TitleString "x") None newPush))
     = Resolved (Wrapper 0)
  /\ promiseState 0 (final (create (firefoxWindow (record 10 "a"))
                              (TitleString "x") None newPush))
     = Resolved EmptyHandle.
Proof.
  intros env.
  destruct (create_settles_exactly_once env "x" None newPush eq_refl eq_refl)
    as [_ [Heff [_ Hst]]].
  destruct (create_settles_exactly_once (firefoxWindow (record 10 "a")) "x" None
              newPush eq_refl eq_refl)
    as [_ [_ [_ Hff]]].
  split; [reflexivity|]. split; [reflexivity|].
  split; [exact Heff|]. split; [exact Hst | exact Hff].
Defined.

(** The state a creation served with a record leaves. *)
Lemma create_record_state env t o n w :
  permissionHas env = true ->
  recordServed env t o n ->
  let w' := final (create env (TitleString t) o w) in
  _currentId w' = S (_currentId w)
  /\ _notifications w'
     = JSObject.set (_currentId w) (JObj n) (_notifications w)
  /\ listeners w' = listeners w ++ attached n (_currentId w) (optionsOr o)
  /\ timers w' = timers w ++ scheduled (_currentId w) (optionsOr o)
  /\ swMessageListeners w' = swMessageListeners w.
Proof.
  intros Hperm Hserve w'. subst w'.
  rewrite (create_granted env t o w Hperm), final_bind_const.
  set (p := nextPromise w). set (w1 := set_nextPromise _ _).
  unfold executor, _createCallback, try_catch. fold (optionsOr o). unfold bind.
  pose proof (Hserve p w1) as Hn. fold (optionsOr o) in Hn.
  destruct (dispatch_frame env t (optionsOr o) p w1) as [Hl [Ht [Hm [Hc Hr]]]].
  destruct (dispatch env t (optionsOr o) p w1) as [v wd|e wd];
    simpl in Hn; [|discriminate].
  inversion Hn; subst v. simpl in Hl, Ht, Hm, Hc, Hr.
  destruct (deliver_record n (optionsOr o) p wd)
    as [Hthrown [Dc [Dr [Dl [Dt Dm]]]]].
  destruct (deliver (JObj n) (optionsOr o) p wd) as [u w2|e w2];
    simpl in Hthrown; [|discriminate].
  simpl in *. rewrite Dc, Dr, Dl, Dt, Dm, Hc, Hr, Hl, Ht, Hm.
  repeat split; reflexivity.
Qed.

(** ** Handles, timers and native events *)

Lemma delete_set_fresh {V} n (v : V) o :
  JSObject.below n o -> JSObject.delete n (JSObject.set n v o) = o.
Proof.
  intros Hb. rewrite (set_below _ _ _ Hb).
  assert (Hnotin : ~ In n (JSObject.keys o)).
  { intros Hin. apply below_keys in Hb. rewrite Forall_forall in Hb.
    specialize (Hb _ Hin). lia. }
  clear Hb. induction o as [|[k x] o IH]; simpl.
  - rewrite Nat.eqb_refl. reflexivity.
  - destruct (Nat.eqb_spec n k) as [->|Hne].
    + exfalso. apply Hnotin. left. reflexivity.
    + f_equal. apply IH. intros Hin. apply Hnotin. right. exact Hin.
Qed.

(** [_closeNotification] touches the registry and nothing else of the
    instance. *)
Lemma _closeNotification_frame env id w :
  timers (final (_closeNotification env id w)) = timers w
  /\ listeners (final (_closeNotification env id w)) = listeners w
  /\ _currentId (final (_closeNotification env id w)) = _currentId w
  /\ swMessageListeners (final (_closeNotification env id w))
     = swMessageListeners w.
Proof.
  unfold _closeNotification, bind, gets.
  destruct (lookup id w); simpl; auto;
    unfold _removeNotification;
    destruct (JSObject.hasOwnProperty id (_notifications w));
    unfold probe, agentClose, emit, modify, bind, ret, throw; simpl;
    destruct (isSupported env Desktop); simpl; auto;
    destruct (isSupported env WebKit); simpl; auto;
    destruct (isSupported env MS); simpl; auto.
Qed.

Lemma final_wrapperClose env id w :
  final (wrapperClose env (Wrapper id) w) = final (_closeNotification env id w).
Proof. unfold wrapperClose. apply final_bind_const. Qed.

(** X6. The handle of a registered notification. While the notification is
    open, [get()] returns its record; [close()] removes the entry,
    whether or not an agent can close the native notification, and from
    then on [get()] returns [undefined]; with one of the three closing
    agents supported [close()] does not throw, and the registry is back
    to what it was before the creation. *)
Theorem handle_get_follows_the_registry
    (env env' : Env) (t : string) (o : option Options) (n : Notification)
    (w : World) :
  permissionHas env = true ->
  recordServed env t o n ->
  JSObject.below (_currentId w) (_notifications w) ->
  let h := Wrapper (_currentId w) in
  let w1 := final (create env (TitleString t) o w) in
  let w2 := final (wrapperClose env' h w1) in
  returned (wrapperGet h w1) = Some (JObj n)
  /\ returned (wrapperGet h w2) = Some JUndefined
  /\ _notifications w2 = _notifications w
  /\ (canClose env' = true -> thrown (wrapperClose env' h w1) = None).
Proof.
  intros Hperm Hserve Hb h w1 w2.
  destruct (create_record_state env t o n w Hperm Hserve) as [Hc [Hr _]].
  fold w1 in Hc, Hr.
  assert (Hget : lookup (_currentId w) w1 = JObj n).
  { unfold lookup. rewrite Hr, get_set_same. reflexivity. }
  assert (Hlive : lookup (_currentId w) w1 <> JUndefined) by (rewrite Hget; discriminate).
  destruct (_closeNotification_deletes env' (_currentId w) w1 Hlive) as [Hdel _].
  assert (Hreg2 : _notifications w2 = _notifications w).
  { unfold w2, h. rewrite final_wrapperClose, Hdel, Hr.
    apply delete_set_fresh, Hb. }
  split; [simpl; rewrite Hget; reflexivity|].
  split.
  { simpl. unfold lookup. fold w2. rewrite Hreg2.
    assert (Hnone : JSObject.get (_currentId w) (_notifications w) = None).
    { apply hasOwnProperty_get.
      destruct (JSObject.hasOwnProperty (_currentId w) (_notifications w)) eqn:E;
        [|reflexivity].
      apply hasOwnProperty_In in E. apply below_keys in Hb.
      rewrite Forall_forall in Hb. specialize (Hb _ E). lia. }
    rewrite Hnone. reflexivity. }
  split; [exact Hreg2|].
  intros Hcan. unfold h, wrapperClose, bind.
  destruct (_closeNotification_true env' (_currentId w) w1 Hlive Hcan) as [w3 H3].
  rewrite H3. reflexivity.
Qed.

Lemma handle_get_follows_the_registry_witness :
  let env := desktopWindow (record 10 "a") in
  let w1 := final (create env (TitleString "x") None newPush) in
  permissionHas env = true
  /\ recordServed env "x" None {| nid := 10; tag := "a" |}
  /\ JSObject.below (_currentId newPush) (_notifications newPush)
  /\ returned (wrapperGet (Wrapper 0) w1) = Some (record 10 "a")
  /\ returned (wrapperGet (Wrapper 0) (final (wrapperClose bareWindow (Wrapper 0) w1)))
     = Some JUndefined.
Proof.
  intros env w1.
  assert (Hs : recordServed env "x" None {| nid := 10; tag := "a" |})
    by (intros p w; reflexivity).
  assert (Hb : JSObject.below (_currentId newPush) (_notifications newPush))
    by constructor.
  destruct (handle_get_follows_the_registry env bareWindow "x" None
              {| nid := 10; tag := "a" |} newPush eq_refl Hs Hb)
    as [Hg [Hu _]].
  split; [reflexivity|]. split; [exact Hs|]. split; [exact Hb|].
  split; [exact Hg | exact Hu].
Defined.

Lemma nth_error_snoc {A} (l : list A) (x : A) :
  nth_error (l ++ [x]) (List.length l) = Some x.
Proof. induction l as [|a l IH]; simpl; [reflexivity | exact IH]. Qed.

Lemma firstn_skipn_snoc {A} (l : list A) (x : A) :
  firstn (List.length l) (l ++ [x]) ++ skipn (S (List.length l)) (l ++ [x]) = l.
Proof.
  induction l as [|a l IH]; simpl; [reflexivity|].
  f_equal. exact IH.
Qed.

(** X7. The autoclose timeout. A creation with a timeout of at least one
    millisecond sets exactly one timer, for the new id; a creation
    without a timeout, or with timeout 0, sets none. When the timer
    fires, the entry leaves the registry, which is then what it was
    before the creation, and the timer is gone; if no closing agent is
    supported at that moment the exception stays inside the timer. *)
Theorem autoclose_timer_removes_the_entry
    (env env' : Env) (t : string) (o : option Options) (n : Notification)
    (w : World) :
  permissionHas env = true ->
  recordServed env t o n ->
  JSObject.below (_currentId w) (_notifications w) ->
  let w1 := final (create env (TitleString t) o w) in
  (forall d, timeout (optionsOr o) = Some (S d) ->
     timers w1 = timers w ++ [(_currentId w, S d)]
     /\ let w2 := step env' (OpTimer (List.length (timers w))) w1 in
        _notifications w2 = _notifications w
        /\ timers w2 = timers w)
  /\ (timeout (optionsOr o) = None \/ timeout (optionsOr o) = Some 0 ->
      timers w1 = timers w).
Proof.
  intros Hperm Hserve Hb w1.
  destruct (create_record_state env t o n w Hperm Hserve) as [Hc [Hr [_ [Ht _]]]].
  fold w1 in Hc, Hr, Ht.
  split.
  - intros d Hd. unfold scheduled in Ht. rewrite Hd in Ht.
    split; [exact Ht|].
    intros w2. set (w1' := set_timers (timers w) w1).
    assert (Hw2 : w2 = uncaught (wrapperClose env' (Wrapper (_currentId w))) w1').
    { unfold w2, step, uncaught, timerFires.
      unfold bind at 1, gets at 1. rewrite Ht, nth_error_snoc.
      unfold bind at 1, modify at 1. rewrite firstn_skipn_snoc. reflexivity. }
    rewrite Hw2. unfold uncaught. clear Hw2 w2.
    assert (Hlive : lookup (_currentId w) w1' <> JUndefined).
    { unfold lookup, w1'. simpl. rewrite Hr, get_set_same. discriminate. }
    destruct (_closeNotification_deletes env' (_currentId w) w1' Hlive) as [Hdel _].
    pose proof (final_wrapperClose env' (_currentId w) w1') as Hfin.
    assert (Htim : timers (final (_closeNotification env' (_currentId w) w1'))
                   = timers w)
      by (rewrite (proj1 (_closeNotification_frame env' (_currentId w) w1'));
          reflexivity).
    rewrite <- Hfin in Hdel, Htim.
    destruct (wrapperClose env' (Wrapper (_currentId w)) w1') as [u w3|e w3];
      simpl in *; rewrite Hdel, Htim; unfold w1'; simpl; rewrite Hr;
      (split; [apply delete_set_fresh, Hb | reflexivity]).
  - intros Hd. unfold scheduled in Ht.
    destruct Hd as [Hd|Hd]; rewrite Hd in Ht; rewrite Ht; apply app_nil_r.
Qed.

Lemma autoclose_timer_removes_the_entry_witness :
  let o := {| timeout := Some 100; onShow := None; onError := None;
              onClick := None; onClose := None; link := None |} in
  let env := desktopWindow (record 10 "a") in
  let w1 := final (create env (TitleString "Hello") (Some o) newPush) in
  permissionHas env = true
  /\ recordServed env "Hello" (Some o) {| nid := 10; tag := "a" |}
  /\ JSObject.below (_currentId newPush) (_notifications newPush)
  /\ timers w1 = [(0, 100)]
  /\ _notifications w1 = [(0, record 10 "a")]
  /\ _notifications (step env (OpTimer 0) w1) = [].
Proof.
  intros o env w1.
  assert (Hs : recordServed env "Hello" (Some o) {| nid := 10; tag := "a" |})
    by (intros p w; reflexivity).
  assert (Hb : JSObject.below (_currentId newPush) (_notifications newPush))
    by constructor.
  destruct (autoclose_timer_removes_the_entry env env "Hello" (Some o)
              {| nid := 10; tag := "a" |} newPush eq_refl Hs Hb)
    as [Hset _].
  destruct (Hset 99 eq_refl) as [Ht [Hr _]].
  split; [reflexivity|]. split; [exact Hs|]. split; [exact Hb|].
  split; [exact Ht|]. split; [reflexivity | exact Hr].
Defined.

Lemma userCallbacks_app l l' :
  userCallbacks (l ++ l') = userCallbacks l ++ userCallbacks l'.
Proof.
  induction l as [|ev l IH]; simpl; [reflexivity|].
  destruct ev; simpl; rewrite IH; reflexivity.
Qed.

Lemma agentsClosed_app l l' :
  agentsClosed (l ++ l') = agentsClosed l ++ agentsClosed l'.
Proof.
  induction l as [|ev l IH]; simpl; [reflexivity|].
  destruct ev; simpl; rewrite IH; reflexivity.
Qed.

Lemma runListeners_skip n ev l1 l2 w :
  Forall (fun l => nid (fst (fst l)) <> nid n) l1 ->
  runListeners n ev (l1 ++ l2) w = runListeners n ev l2 w.
Proof.
  induction 1 as [|[[n' ev'] l] l1 Hne _ IH]; simpl; [reflexivity|].
  simpl in Hne. apply Nat.eqb_neq in Hne. rewrite Hne. simpl.
  exact IH.
Qed.

Lemma runListeners_attached n id o w :
  runListeners n "close" (attached n id o) w = onCloseHandler id (onClose o) w
  /\ runListeners n "cancel" (attached n id o) w = onCloseHandler id (onClose o) w
  /\ runListeners n "show" (attached n id o) w
     = match onShow o with
       | Some f => emit (EvUserCallback f) w
       | None => Ok tt w
       end.
Proof.
  destruct o as [to os oe oc ocl ln]. unfold attached. simpl.
  destruct os, oe, oc; simpl; rewrite ?Nat.eqb_refl; simpl;
    unfold bind, ret, emit, modify;
    (split; [|split]);
    try (destruct (onCloseHandler id ocl w) as [[] w'|e w']; reflexivity);
    reflexivity.
Qed.

Lemma hasOwnProperty_set_same {V} k (v : V) o :
  JSObject.hasOwnProperty k (JSObject.set k v o) = true.
Proof.
  destruct (JSObject.hasOwnProperty k (JSObject.set k v o)) eqn:E; [reflexivity|].
  apply hasOwnProperty_get in E. rewrite get_set_same in E. discriminate.
Qed.

(** X8. Native signals on a registered record that nothing listened to
    before. On [close] and on [cancel] the entry leaves the registry,
    which is then what it was before the creation, the caller's
    [onClose] is called once if it is a function, and no agent is asked
    or called; on [show] the caller's [onShow] is called if it is a
    function and the registry stays. *)
Theorem native_close_removes_and_notifies
    (env envx : Env) (t : string) (o : option Options) (n : Notification)
    (w : World) :
  permissionHas env = true ->
  recordServed env t o n ->
  JSObject.below (_currentId w) (_notifications w) ->
  Forall (fun l => nid (fst (fst l)) <> nid n) (listeners w) ->
  let w1 := final (create env (TitleString t) o w) in
  (forall ev, ev = "close" \/ ev = "cancel" ->
     let w2 := step envx (OpNativeEvent n ev) w1 in
     _notifications w2 = _notifications w
     /\ userCallbacks (log w2)
        = userCallbacks (log w1)
          ++ match onClose (optionsOr o) with Some f => [f] | None => [] end
     /\ agentsClosed (log w2) = agentsClosed (log w1)
     /\ agentsProbed (log w2) = agentsProbed (log w1))
  /\ (let w2 := step envx (OpNativeEvent n "show") w1 in
      _notifications w2 = _notifications w1
      /\ userCallbacks (log w2)
         = userCallbacks (log w1)
           ++ match onShow (optionsOr o) with Some f => [f] | None => [] end).
Proof.
  intros Hperm Hserve Hb Hold w1.
  destruct (create_record_state env t o n w Hperm Hserve) as [Hc [Hr [Hl _]]].
  fold w1 in Hc, Hr, Hl.
  assert (Hrun : forall ev,
            step envx (OpNativeEvent n ev) w1
            = uncaught (runListeners n ev (attached n (_currentId w) (optionsOr o))) w1).
  { intros ev. unfold step, uncaught, nativeEvent. unfold bind at 1, gets at 1.
    rewrite Hl, runListeners_skip by exact Hold. reflexivity. }
  destruct (runListeners_attached n (_currentId w) (optionsOr o) w1)
    as [Hclose [Hcancel Hshow]].
  assert (Hhandler :
            onCloseHandler (_currentId w) (onClose (optionsOr o)) w1
            = Ok tt
                (set_log
                   (log w1 ++ match onClose (optionsOr o) with
                              | Some f => [EvUserCallback f]
                              | None => []
                              end)
                   (set_notifications
                      (JSObject.delete (_currentId w) (_notifications w1)) w1))).
  { unfold onCloseHandler, _removeNotification, bind.
    rewrite Hr, hasOwnProperty_set_same.
    destruct (onClose (optionsOr o)); unfold emit, modify, ret; simpl;
      rewrite ?app_nil_r; [reflexivity|].
    destruct w1; reflexivity. }
  split.
  - intros ev Hev w2. subst w2. rewrite Hrun. unfold uncaught.
    destruct Hev as [-> | ->]; [rewrite Hclose | rewrite Hcancel];
      rewrite Hhandler; simpl; rewrite Hr;
      autorewrite with logs; rewrite ?userCallbacks_app, ?agentsClosed_app;
      (split; [apply delete_set_fresh, Hb|]);
      destruct (onClose (optionsOr o)); simpl; rewrite ?app_nil_r; auto.
  - intros w2. subst w2. rewrite Hrun. unfold uncaught. rewrite Hshow.
    destruct (onShow (optionsOr o)); unfold emit, modify; simpl;
      rewrite ?userCallbacks_app; simpl; rewrite ?app_nil_r; auto.
Qed.

Lemma native_close_removes_and_notifies_witness :
  let o := {| timeout := None; onShow := None; onError := None;
              onClick := None; onClose := Some {| cb_name := "closed" |};
              link := None |} in
  let n := {| nid := 10; tag := "a" |} in
  let env := desktopWindow (JObj n) in
  let w1 := final (create env (TitleString "x") (Some o) newPush) in
  permissionHas env = true
  /\ recordServed env "x" (Some o) n
  /\ JSObject.below (_currentId newPush) (_notifications newPush)
  /\ Forall (fun l => nid (fst (fst l)) <> nid n) (listeners newPush)
  /\ _notifications w1 = [(0, JObj n)]
  /\ _notifications (step env (OpNativeEvent n "close") w1) = []
  /\ userCallbacks (log (step env (OpNativeEvent n "close") w1))
     = [{| cb_name := "closed" |}].
Proof.
  intros o n env w1.
  assert (Hs : recordServed env "x" (Some o) n) by (intros p w; reflexivity).
  assert (Hb : JSObject.below (_currentId newPush) (_notifications newPush))
    by constructor.
  assert (Hl : Forall (fun l => nid (fst (fst l)) <> nid n) (listeners newPush))
    by constructor.
  destruct (native_close_removes_and_notifies env env "x" (Some o) n newPush
              eq_refl Hs Hb Hl) as [Hclose _].
  destruct (Hclose "close" (or_introl eq_refl)) as [Hr [Hu _]].
  split; [reflexivity|]. split; [exact Hs|]. split; [exact Hb|].
  split; [exact Hl|]. split; [reflexivity|]. split; [exact Hr | exact Hu].
Defined.

(** ** [supported] *)

Lemma supportedLoop_found env l w : supportedLoop env l true w = Ok true w.
Proof. induction l as [|a l IH]; simpl; [reflexivity | exact IH]. Qed.

Lemma supportedLoop_spec env l :
  forall w,
    returned (supportedLoop env l false w) = Some (existsb (isSupported env) l)
    /\ agentsProbed (log (final (supportedLoop env l false w)))
       = agentsProbed (log w) ++ askedUntilSupported (isSupported env) l
    /\ viewOf (final (supportedLoop env l false w)) = viewOf w
    /\ agentsCreated (log (final (supportedLoop env l false w)))
       = agentsCreated (log w).
Proof.
  induction l as [|a l IH]; intros w.
  - simpl. rewrite app_nil_r. auto.
  - simpl supportedLoop. unfold bind, probe, emit, modify, ret. simpl.
    destruct (isSupported env a) eqn:Ea; simpl.
    + rewrite supportedLoop_found. unfold viewOf. simpl.
      autorewrite with logs. simpl. rewrite ?app_nil_r. auto.
    + destruct (IH (set_log (log w ++ [EvIsSupported a]) w)) as [H1 [H2 [H3 H4]]].
      rewrite H1, H2, H3, H4. unfold viewOf. simpl.
      autorewrite with logs. simpl. rewrite <- app_assoc, ?app_nil_r. auto.
Qed.

(** X9. [supported()] returns true exactly when at least one of the five
    agents reports support. It asks them in the order desktop, Service
    Worker, Firefox-mobile, IE, WebKit and stops asking at the first one
    that does; it calls no agent and changes neither the registry nor
    the counter. *)
Theorem supported_iff_some_agent (env : Env) (w : World) :
  let order := [Desktop; Chrome; Firefox; MS; WebKit] in
  returned (supported env w) = Some (existsb (isSupported env) order)
  /\ (returned (supported env w) = Some true
      <-> exists a, isSupported env a = true)
  /\ agentsProbed (log (final (supported env w)))
     = agentsProbed (log w) ++ askedUntilSupported (isSupported env) order
  /\ agentsCreated (log (final (supported env w))) = agentsCreated (log w)
  /\ viewOf (final (supported env w)) = viewOf w.
Proof.
  intros order. unfold supported. fold order.
  destruct (supportedLoop_spec env order w) as [H1 [H2 [H3 H4]]].
  split; [exact H1|]. split; [|auto].
  rewrite H1. split.
  - intros H.
    assert (He : existsb (isSupported env) order = true) by congruence.
    apply existsb_exists in He.
    destruct He as [a [_ Ha]]. exists a. exact Ha.
  - intros [a Ha]. f_equal. apply existsb_exists. exists a. split; [|exact Ha].
    unfold order. destruct a; simpl; auto 6.
Qed.

(** X10. [supported()] can be true where no creation can succeed: when the
    Service-Worker agent is the only one that reports support,
    [supported()] returns true, and a [create] with permission granted
    is rejected with the unknown-interface error without the
    Service-Worker agent ever being called. *)
Theorem supported_does_not_mean_creatable
    (env : Env) (t : string) (o : option Options) (w : World) :
  isSupported env Chrome = true ->
  isSupported env Desktop = false ->
  isSupported env WebKit = false ->
  isSupported env Firefox = false ->
  isSupported env MS = false ->
  permissionHas env = true ->
  promiseState (nextPromise w) w = Pending ->
  returned (supported env w) = Some true
  /\ promiseState (nextPromise w) (final (create env (TitleString t) o w))
     = Rejected (ErrorObj (unknown_interface (messages env)))
  /\ agentsCreated (log (final (create env (TitleString t) o w)))
     = agentsCreated (log w)
  /\ swRequests (final (create env (TitleString t) o w)) = swRequests w.
Proof.
  intros Hc Hd Hk Hf Hm Hperm Hfresh.
  split.
  { unfold supported. simpl. unfold bind, probe, emit, modify, ret. simpl.
    rewrite Hd. simpl. rewrite Hc. simpl. apply f_equal.
    reflexivity. }
  rewrite (create_granted env t o w Hperm), final_bind_const.
  set (p := nextPromise w). set (w1 := set_nextPromise _ _).
  assert (Hp1 : promiseState p w1 = Pending).
  { destruct (promise_after p w w1 [EvPermissionHas] Pending 0) as [H _];
      [reflexivity | exact Hfresh | reflexivity | exact H]. }
  destruct (executor_settles env t o p w1 Hp1) as [_ [_ Hstate]].
  split.
  { rewrite Hstate. unfold dispatch. js_unfold. simpl.
    rewrite Hd. simpl. rewrite Hk. simpl. rewrite Hf. simpl. rewrite Hm.
    reflexivity. }
  unfold executor, _createCallback, try_catch, dispatch. js_unfold. simpl.
  rewrite Hd. simpl. rewrite Hk. simpl. rewrite Hf. simpl. rewrite Hm. simpl.
  autorewrite with logs. simpl. rewrite ?app_nil_r. auto.
Qed.

Lemma supported_does_not_mean_creatable_witness :
  isSupported workerOnlyWindow Chrome = true
  /\ promiseState (nextPromise newPush) newPush = Pending
  /\ returned (supported workerOnlyWindow newPush) = Some true
  /\ promiseState 0 (final (create workerOnlyWindow (TitleString "x") None newPush))
     = Rejected (ErrorObj (unknown_interface someMessages)).
Proof.
  destruct (supported_does_not_mean_creatable workerOnlyWindow "x" None newPush
              eq_refl eq_refl eq_refl eq_refl eq_refl eq_refl eq_refl)
    as [Hs [Hr _]].
  split; [reflexivity|]. split; [reflexivity|]. split; [exact Hs | exact Hr].
Defined.

(** ** Which agent closes *)

(** X11. [_closeNotification] on a registered value asks the desktop, WebKit
    and IE agents in that order, stops at the first supported one and
    calls the [close] of that agent alone, once: with the registered
    value for the desktop and WebKit agents, without argument for the IE
    agent. The Service-Worker and Firefox-mobile agents are neither asked
    nor called, and no agent creates anything. With a closing agent
    supported the call returns true. *)
Theorem closing_agent_priority (env : Env) (id : nat) (w : World) :
  lookup id w <> JUndefined ->
  let r := _closeNotification env id w in
  agentsProbed (log (final r))
  = agentsProbed (log w)
    ++ askedUntilSupported (isSupported env) [Desktop; WebKit; MS]
  /\ agentsClosed (log (final r))
     = agentsClosed (log w)
       ++ match firstSupported (isSupported env) [Desktop; WebKit; MS] with
          | Some MS => [(MS, JUndefined)]
          | Some a => [(a, lookup id w)]
          | None => []
          end
  /\ agentsCreated (log (final r)) = agentsCreated (log w)
  /\ (canClose env = true -> returned r = Some true).
Proof.
  intros Hlive r. subst r. pose proof (lookup_present _ _ Hlive) as Hown.
  unfold _closeNotification, bind, gets, canClose, firstSupported.
  destruct (lookup id w) eqn:El; try congruence;
    unfold _removeNotification; rewrite Hown;
    unfold probe, agentClose, emit, modify, bind, ret, throw; simpl;
    destruct (isSupported env Desktop); simpl;
    try (autorewrite with logs; rewrite ?agentsClosed_app; simpl;
         rewrite ?app_nil_r; repeat rewrite <- app_assoc; simpl; auto; fail);
    destruct (isSupported env WebKit); simpl;
    try (autorewrite with logs; rewrite ?agentsClosed_app; simpl;
         rewrite ?app_nil_r; repeat rewrite <- app_assoc; simpl; auto; fail);
    destruct (isSupported env MS); simpl;
    autorewrite with logs; rewrite ?agentsClosed_app; simpl;
    rewrite ?app_nil_r; repeat rewrite <- app_assoc; simpl;
    repeat split; auto; discriminate.
Qed.

Lemma closing_agent_priority_witness :
  let w := withRegistry 1 [(0, record 10 "a")] in
  let env := window (fun a => match a with WebKit | MS | Chrome => true | _ => false end)
                    (fun _ => Returns JNull) in
  lookup 0 w <> JUndefined
  /\ agentsProbed (log (final (_closeNotification env 0 w))) = [Desktop; WebKit]
  /\ agentsClosed (log (final (_closeNotification env 0 w)))
     = [(WebKit, record 10 "a")].
Proof.
  intros w env.
  assert (Hl : lookup 0 w <> JUndefined) by discriminate.
  destruct (closing_agent_priority env 0 w Hl) as [Hp [Hc _]].
  split; [exact Hl|]. split; [exact Hp | exact Hc].
Defined.

Lemma supported_iff_some_agent_witness :
  returned (supported workerOnlyWindow newPush) = Some true
  /\ (exists a, isSupported workerOnlyWindow a = true)
  /\ agentsProbed (log (final (supported workerOnlyWindow newPush)))
     = [Desktop; Chrome].
Proof.
  destruct (supported_iff_some_agent workerOnlyWindow newPush) as [Hr [Hiff [Hp _]]].
  split; [exact Hr|]. split; [apply (proj1 Hiff), Hr | exact Hp].
Defined.

(** ** [clear], [close] and [count] over whole registries *)

Lemma _closeNotification_closes_once env id w :
  lookup id w <> JUndefined ->
  canClose env = true ->
  List.length (agentsClosed (log (final (_closeNotification env id w))))
  = S (List.length (agentsClosed (log w))).
Proof.
  intros Hlive Hcan. pose proof (lookup_present _ _ Hlive) as Hown.
  unfold canClose in Hcan.
  unfold _closeNotification, bind, gets.
  destruct (lookup id w) eqn:El; try congruence;
    unfold _removeNotification; rewrite Hown;
    unfold probe, agentClose, emit, modify, bind, ret, throw; simpl;
    destruct (isSupported env Desktop); simpl;
    try (rewrite ?agentsClosed_app, ?length_app; simpl; lia);
    destruct (isSupported env WebKit); simpl;
    try (rewrite ?agentsClosed_app, ?length_app; simpl; lia);
    destruct (isSupported env MS); simpl;
    try (rewrite ?agentsClosed_app, ?length_app; simpl; lia);
    discriminate.
Qed.

Lemma clearLoop_closes env ks :
  canClose env = true ->
  NoDup ks ->
  forall w,
    (forall k, In k ks -> lookup k w <> JUndefined) ->
    List.length (agentsClosed (log (final (clearLoop env ks true w))))
    = List.length (agentsClosed (log w)) + List.length ks.
Proof.
  intros Hs. induction 1 as [|k ks Hnotin Hnd IH]; intros w Hlive.
  - simpl. lia.
  - rewrite clearLoop_cons.
    assert (Hk : lookup k w <> JUndefined) by (apply Hlive; left; reflexivity).
    rewrite (lookup_present _ _ Hk).
    destruct (_closeNotification_true env k w Hk Hs) as [w1 H1].
    destruct (_closeNotification_deletes env k w Hk) as [Hreg _].
    pose proof (_closeNotification_closes_once env k w Hk Hs) as Hlen.
    rewrite H1 in Hreg, Hlen. simpl in Hreg, Hlen.
    unfold bind. rewrite H1. rewrite IH.
    + rewrite Hlen. simpl. lia.
    + intros k' Hin. unfold lookup. rewrite Hreg.
      rewrite get_delete_other by (intros ->; contradiction).
      apply (Hlive k'). right. exact Hin.
Qed.

(** X12. [clear()] on a registry whose entries all hold a value other than
    [undefined], with one of the three closing agents supported: every
    entry is closed through an agent exactly once, the registry ends
    empty, [count()] is 0 afterwards and the result is true. In
    particular [clear()] on an empty registry returns true. *)
Theorem clear_empties_the_registry (env : Env) (w : World) :
  canClose env = true ->
  NoDup (JSObject.keys (_notifications w)) ->
  Forall (fun kv => snd kv <> JUndefined) (_notifications w) ->
  returned (clear env w) = Some true
  /\ _notifications (final (clear env w)) = []
  /\ returned (count (final (clear env w))) = Some 0
  /\ List.length (agentsClosed (log (final (clear env w))))
     = List.length (agentsClosed (log w)) + List.length (_notifications w).
Proof.
  intros Hs Hnd Hall.
  assert (Hlive : forall k, In k (JSObject.keys (_notifications w)) ->
                            lookup k w <> JUndefined).
  { intros k Hin. unfold JSObject.keys in Hin. apply in_map_iff in Hin.
    destruct Hin as [[k0 v] [E Hin]]. simpl in E. subst k0.
    unfold lookup. rewrite (get_entry _ k v Hnd Hin).
    rewrite Forall_forall in Hall. exact (Hall _ Hin). }
  destruct (clear_closes_all env w Hs Hnd Hall) as [w' [Hrun Hempty]].
  pose proof (clearLoop_closes env _ Hs Hnd w Hlive) as Hlen.
  unfold clear in *. unfold bind at 1, gets at 1 in Hrun.
  unfold bind at 1, gets at 1. unfold bind at 1, gets at 1.
  unfold bind at 1, gets at 1. unfold bind at 1, gets at 1.
  rewrite Hrun in *. simpl in *. rewrite Hempty.
  unfold JSObject.keys in Hlen. rewrite length_map in Hlen. auto.
Qed.

Lemma clear_empties_the_registry_witness :
  let w := withRegistry 2 [(0, record 10 "a"); (1, record 11 "b")] in
  let env := desktopWindow JNull in
  canClose env = true
  /\ NoDup (JSObject.keys (_notifications w))
  /\ returned (clear env w) = Some true
  /\ _notifications (final (clear env w)) = []
  /\ List.length (agentsClosed (log (final (clear env w)))) = 2.
Proof.
  intros w env.
  assert (Hnd : NoDup (JSObject.keys (_notifications w))).
  { simpl. repeat constructor; simpl; intuition discriminate. }
  assert (Hall : Forall (fun kv => snd kv <> JUndefined) (_notifications w)).
  { simpl. repeat constructor; discriminate. }
  destruct (clear_empties_the_registry env w eq_refl Hnd Hall)
    as [Hr [He [_ Hl]]].
  split; [reflexivity|]. split; [exact Hnd|]. split; [exact Hr|].
  split; [exact He | exact Hl].
Defined.

(** X13. [close(tag)] meets, before any record tagged [t], an entry that is
    not a record: reading its tag raises a TypeError. Nothing is closed
    or removed, not even a record tagged [t] that comes later, and no
    agent is asked. *)
Theorem close_tag_throws_on_non_record
    (env : Env) (t : string) (w : World)
    (l1 : list (nat * JSValue)) (k : nat) (v : JSValue)
    (l2 : list (nat * JSValue)) :
  NoDup (JSObject.keys (_notifications w)) ->
  _notifications w = l1 ++ (k, v) :: l2 ->
  Forall (fun kv => otherTag t (snd kv)) l1 ->
  v = JUndefined \/ v = JNull ->
  close env t w = Throw (TypeErrorObj "tag") w.
Proof.
  intros Hnd Hreg Hall Hv.
  unfold close. unfold bind at 1, gets at 1.
  rewrite Hreg at 1. unfold JSObject.keys. rewrite map_app. simpl map.
  rewrite closeLoop_skip
    by (exact (entries_get (otherTag t) _ l1 _ Hreg Hnd Hall)).
  rewrite closeLoop_cons.
  assert (Hget : JSObject.get k (_notifications w) = Some v).
  { apply get_entry; [exact Hnd|]. rewrite Hreg. apply in_or_app.
    right. left. reflexivity. }
  assert (Hown : JSObject.hasOwnProperty k (_notifications w) = true).
  { destruct (JSObject.hasOwnProperty k (_notifications w)) eqn:E; [reflexivity|].
    apply hasOwnProperty_get in E. congruence. }
  rewrite Hown. unfold lookup. rewrite Hget.
  destruct Hv as [-> | ->]; reflexivity.
Qed.

Lemma close_tag_throws_on_non_record_witness :
  let w := withRegistry 3 [(0, record 10 "b"); (1, JUndefined); (2, record 12 "a")] in
  NoDup (JSObject.keys (_notifications w))
  /\ close (desktopWindow JNull) "a" w = Throw (TypeErrorObj "tag") w.
Proof.
  intros w.
  assert (Hnd : NoDup (JSObject.keys (_notifications w))).
  { simpl. repeat constructor; simpl; intuition discriminate. }
  split; [exact Hnd|].
  apply (close_tag_throws_on_non_record (desktopWindow JNull) "a" w
           [(0, record 10 "b")] 1 JUndefined [(2, record 12 "a")] Hnd eq_refl).
  - constructor; [|constructor].
    exists {| nid := 10; tag := "b" |}. split; [reflexivity | discriminate].
  - left. reflexivity.
Defined.

(** ** An entry that holds [undefined] *)

Lemma _closeNotification_keeps_undefined env id key w :
  JSObject.get id (_notifications w) = Some JUndefined ->
  JSObject.get id (_notifications (final (_closeNotification env key w)))
  = Some JUndefined.
Proof.
  intros Hget.
  destruct (Nat.eq_dec key id) as [->|Hne].
  - rewrite _closeNotification_undefined; [exact Hget|].
    unfold lookup. rewrite Hget. reflexivity.
  - destruct (lookup key w) eqn:El.
    + destruct (_closeNotification_deletes env key w) as [-> _]; [congruence|].
      rewrite get_delete_other by exact Hne. exact Hget.
    + rewrite _closeNotification_undefined; [exact Hget | exact El].
    + destruct (_closeNotification_deletes env key w) as [-> _]; [congruence|].
      rewrite get_delete_other by exact Hne. exact Hget.
Qed.

Lemma clearLoop_keeps_undefined env id ks :
  forall w s,
    JSObject.get id (_notifications w) = Some JUndefined ->
    JSObject.get id (_notifications (final (clearLoop env ks s w)))
    = Some JUndefined
    /\ (In id ks \/ s = false -> returned (clearLoop env ks s w) <> Some true).
Proof.
  induction ks as [|key ks IH]; intros w s Hget.
  - simpl. split; [exact Hget|]. intros [[]| ->]. discriminate.
  - rewrite clearLoop_cons.
    destruct (JSObject.hasOwnProperty key (_notifications w)) eqn:Hown.
    + destruct s.
      * pose proof (_closeNotification_keeps_undefined env id key w Hget) as Hk.
        unfold bind.
        destruct (_closeNotification env key w) as [b w1|e w1] eqn:Hc;
          simpl in Hk.
        -- destruct (IH w1 b Hk) as [IH1 IH2]. split; [exact IH1|].
           intros [[->|Hin]|Hs]; [| apply IH2; left; exact Hin | discriminate].
           apply IH2. right.
           rewrite _closeNotification_undefined in Hc
             by (unfold lookup; rewrite Hget; reflexivity).
           inversion Hc. reflexivity.
        -- split; [exact Hk | intros _; discriminate].
      * rewrite clearLoop_false. split; [exact Hget | intros _; discriminate].
    + destruct (IH w s Hget) as [IH1 IH2]. split; [exact IH1|].
      intros [[->|Hin]|Hs]; [| apply IH2; left; exact Hin | apply IH2; right; exact Hs].
      apply hasOwnProperty_get in Hown. congruence.
Qed.

Lemma closeLoop_keeps_undefined env id t ks :
  forall w,
    JSObject.get id (_notifications w) = Some JUndefined ->
    JSObject.get id (_notifications (final (closeLoop env t ks w)))
    = Some JUndefined.
Proof.
  induction ks as [|key ks IH]; intros w Hget; [exact Hget|].
  rewrite closeLoop_cons.
  destruct (JSObject.hasOwnProperty key (_notifications w)); [|apply IH, Hget].
  destruct (lookup key w) as [| |n]; [exact Hget | exact Hget |].
  destruct (String.eqb (tag n) t); [|apply IH, Hget].
  rewrite final_bind_ret. apply _closeNotification_keeps_undefined, Hget.
Qed.

(** X14. The worker's callback on an empty list of notifications stores
    [undefined] under a new id. No closure operation ever removes an
    entry that holds [undefined]: [_closeNotification] and the handle's
    [close()] return without touching it, it is still there after
    [clear()] and after [close(tag)], and while it is there [clear()]
    never returns true. *)
Theorem undefined_entry_survives_closures
    (env : Env) (t : string) (id : nat) (w : World) :
  (forall o p w0,
      JSObject.get (_currentId w0)
        (_notifications (final (serviceWorkerCallback o p [] w0)))
      = Some JUndefined)
  /\ (JSObject.get id (_notifications w) = Some JUndefined ->
      _closeNotification env id w = Ok false w
      /\ wrapperClose env (Wrapper id) w = Ok tt w
      /\ JSObject.get id (_notifications (final (clear env w))) = Some JUndefined
      /\ returned (clear env w) <> Some true
      /\ JSObject.get id (_notifications (final (close env t w)))
         = Some JUndefined).
Proof.
  split.
  - intros o p w0.
    pose proof (serviceWorkerCallback_view o p [] w0) as Hv.
    unfold viewOf in Hv. inversion Hv as [[Hc Hr Hi]].
    rewrite Hr. apply get_set_same.
  - intros Hget.
    assert (Hl : lookup id w = JUndefined) by (unfold lookup; rewrite Hget; reflexivity).
    split; [apply _closeNotification_undefined, Hl|].
    split.
    { unfold wrapperClose, bind.
      rewrite (_closeNotification_undefined _ _ _ Hl). reflexivity. }
    assert (Hin : In id (JSObject.keys (_notifications w))).
    { apply hasOwnProperty_In.
      destruct (JSObject.hasOwnProperty id (_notifications w)) eqn:E; [reflexivity|].
      apply hasOwnProperty_get in E. congruence. }
    destruct (clearLoop_keeps_undefined env id (JSObject.keys (_notifications w))
                w true Hget) as [Hk Hn].
    split; [exact Hk|]. split; [apply Hn; left; exact Hin|].
    apply (closeLoop_keeps_undefined env id t _ w Hget).
Qed.

Lemma undefined_entry_survives_closures_witness :
  let w := run twoWorkerCreations newPush in
  JSObject.get 0 (_notifications w) = Some JUndefined
  /\ JSObject.get 0 (_notifications (final (clear mobileChromeWindow w)))
     = Some JUndefined
  /\ returned (clear mobileChromeWindow w) <> Some true.
Proof.
  intros w.
  assert (Hg : JSObject.get 0 (_notifications w) = Some JUndefined) by reflexivity.
  destruct (undefined_entry_survives_closures mobileChromeWindow "a" 0 w)
    as [_ H].
  destruct (H Hg) as [_ [_ [Hk [Hn _]]]].
  split; [exact Hg|]. split; [exact Hk | exact Hn].
Defined.

(** ** Messages and failures of the worker *)

Lemma workerMessage_ignored k action id w :
  (String.eqb action "close" = false \/ id = None) ->
  workerMessage k action id w = Ok tt w.
Proof.
  intros H. induction k as [|k IH]; simpl; [reflexivity|].
  unfold bind, serviceWorkerMessage.
  destruct id as [i|].
  - destruct H as [H|H]; [|discriminate]. rewrite H. exact IH.
  - exact IH.
Qed.

Lemma workerMessage_close k i w :
  _notifications (final (workerMessage (S k) "close" (Some i) w))
  = JSObject.delete i (_notifications w)
  /\ log (final (workerMessage (S k) "close" (Some i) w)) = log w
  /\ _currentId (final (workerMessage (S k) "close" (Some i) w)) = _currentId w
  /\ thrown (workerMessage (S k) "close" (Some i) w) = None.
Proof.
  assert (Hrest : forall k w,
            JSObject.hasOwnProperty i (_notifications w) = false ->
            workerMessage k "close" (Some i) w = Ok tt w).
  { clear. induction k as [|k IH]; intros w Habs; simpl; [reflexivity|].
    unfold bind, serviceWorkerMessage. simpl.
    unfold bind, _removeNotification. rewrite Habs. simpl. apply IH, Habs. }
  assert (Hstep : workerMessage (S k) "close" (Some i) w
                  = workerMessage k "close" (Some i)
                      (final (_removeNotification i w))).
  { simpl workerMessage. unfold bind, serviceWorkerMessage. simpl.
    unfold bind, _removeNotification.
    destruct (JSObject.hasOwnProperty i (_notifications w)); reflexivity. }
  rewrite Hstep. unfold _removeNotification.
  destruct (JSObject.hasOwnProperty i (_notifications w)) eqn:Hown; simpl.
  - rewrite Hrest by (simpl; apply hasOwnProperty_delete_same). simpl. auto.
  - rewrite (Hrest k w Hown). simpl.
    rewrite (delete_absent _ _ Hown). auto.
Qed.

(** X15. A message from the worker. With the action [close] and an integer
    id, and at least one worker callback having run before, the entry
    with that id leaves the registry (nothing happens if there is none),
    however many listeners the callbacks have attached; no agent is asked
    or called and no callback of the caller runs. Any other action, an
    id that is not an integer, or a message that arrives before any
    worker callback has run, changes nothing. *)
Theorem worker_message_removes_without_agent
    (envx : Env) (action : string) (id : option nat) (w : World) :
  let w' := step envx (OpWorkerMessage action id) w in
  (forall i, action = "close" -> id = Some i -> 1 <= swMessageListeners w ->
     _notifications w' = JSObject.delete i (_notifications w)
     /\ log w' = log w
     /\ _currentId w' = _currentId w)
  /\ (action <> "close" \/ id = None \/ swMessageListeners w = 0 -> w' = w).
Proof.
  intros w'. subst w'. unfold step, uncaught. split.
  - intros i -> -> Hk.
    destruct (swMessageListeners w) as [|k]; [lia|].
    destruct (workerMessage_close k i w) as [Hr [Hl [Hc Ht]]].
    destruct (workerMessage (S k) "close" (Some i) w) as [u w1|e w1];
      simpl in *; [auto | discriminate].
  - intros [Ha|[Hi|Hk]].
    + rewrite workerMessage_ignored; [reflexivity|].
      left. apply String.eqb_neq, Ha.
    + rewrite workerMessage_ignored; [reflexivity | right; exact Hi].
    + rewrite Hk. reflexivity.
Qed.

Lemma worker_message_removes_without_agent_witness :
  let w := run twoWorkerCreations newPush in
  1 <= swMessageListeners w
  /\ _notifications (step mobileChromeWindow (OpWorkerMessage "close" (Some 1)) w)
     = [(0, JUndefined)]
  /\ step mobileChromeWindow (OpWorkerMessage "click" (Some 1)) w = w
  /\ step mobileChromeWindow (OpWorkerMessage "close" (Some 0)) newPush = newPush.
Proof.
  intros w.
  assert (Hk : 1 <= swMessageListeners w) by (vm_compute; lia).
  split; [exact Hk|].
  destruct (worker_message_removes_without_agent mobileChromeWindow "close" (Some 1) w)
    as [Hclose _].
  destruct (worker_message_removes_without_agent mobileChromeWindow "click" (Some 1) w)
    as [_ Hother].
  destruct (worker_message_removes_without_agent mobileChromeWindow "close" (Some 0) newPush)
    as [_ Hnone].
  split; [exact (proj1 (Hclose 1 eq_refl eq_refl Hk))|].
  split; [apply Hother; left; discriminate|].
  apply Hnone. right. right. reflexivity.
Defined.

Lemma settleAll_uncaught q s e :
  settleAll q s [EvUncaught e] = (s, 0).
Proof. destruct s; reflexivity. Qed.

(** X16. A failure of the worker. When the registration (request waiting for
    ready) or the display (request waiting for the display) fails with
    [msg], the agent throws an error made of the fixed prefix for that
    stage and [msg], which nobody catches: the request is dropped, its
    callback never runs afterwards, the registry and the counter stay as
    they were, and no future is rejected or otherwise changed by the
    failure. *)
Theorem worker_failure_is_uncaught
    (env : Env) (p : nat) (msg : string) (r : SWRequest) (w : World) :
  findSW p (swRequests w) = Some r ->
  sw_stage r = AwaitReady \/ sw_stage r = AwaitShown ->
  let w' := step env (OpSWFailed p msg) w in
  thrown (swFailed env p msg w)
  = Some (ErrorObj
            (String.append
               (match sw_stage r with
                | AwaitReady => sw_registration_error (messages env)
                | _ => sw_notification_error (messages env)
                end) msg))
  /\ findSW p (swRequests w') = None
  /\ viewOf w' = viewOf w
  /\ (forall q, promiseState q w' = promiseState q w)
  /\ (forall ns, swList p ns w' = Ok tt w').
Proof.
  intros Hfind Hstage w'.
  set (e := ErrorObj
              (String.append
                 (match sw_stage r with
                  | AwaitReady => sw_registration_error (messages env)
                  | _ => sw_notification_error (messages env)
                  end) msg)).
  assert (Hrun : swFailed env p msg w
                 = Throw e (set_swRequests (dropSW p (swRequests w)) w)).
  { unfold swFailed, e. js_unfold. rewrite Hfind.
    destruct Hstage as [-> | ->]; reflexivity. }
  assert (Hw' : w' = set_log (log w ++ [EvUncaught e])
                       (set_swRequests (dropSW p (swRequests w)) w)).
  { unfold w', step, uncaught. rewrite Hrun. reflexivity. }
  assert (Hnone : findSW p (swRequests w') = None)
    by (rewrite Hw'; simpl; apply findSW_dropSW).
  split; [rewrite Hrun; reflexivity|].
  split; [exact Hnone|].
  split.
  { rewrite Hw'. unfold viewOf. simpl. rewrite wrapperIds_app. simpl.
    rewrite app_nil_r. reflexivity. }
  split.
  { intros q. rewrite Hw'. unfold promiseState. simpl.
    rewrite settleAll_app, settleAll_uncaught. reflexivity. }
  intros ns. unfold swList. js_unfold. rewrite Hnone. reflexivity.
Qed.

Lemma worker_failure_is_uncaught_witness :
  let w := step mobileChromeWindow (OpCreate (TitleString "x") None) newPush in
  let w' := step mobileChromeWindow (OpSWFailed 0 "denied") w in
  (exists r, findSW 0 (swRequests w) = Some r /\ sw_stage r = AwaitReady)
  /\ thrown (swFailed mobileChromeWindow 0 "denied" w)
     = Some (ErrorObj (String.append (sw_registration_error someMessages) "denied"))
  /\ promiseState 0 w' = Resolved EmptyHandle
  /\ swList 0 [record 11 "a"] w' = Ok tt w'.
Proof.
  intros w w'.
  destruct (worker_failure_is_uncaught mobileChromeWindow 0 "denied"
              {| sw_promise := 0; sw_id := 0; sw_title := "x";
                 sw_options := noOptions; sw_path := "./serviceWorker.js";
                 sw_stage := AwaitReady |} w eq_refl (or_introl eq_refl))
    as [Ht [_ [_ [Hp Hl]]]].
  split; [eexists; split; reflexivity|].
  split; [exact Ht|]. split; [|exact (Hl _)].
  fold w' in Hp. rewrite Hp. reflexivity.
Defined.

(** ** [count] *)

Lemma NoDup_keys_delete {V} (o : list (nat * V)) k :
  NoDup (JSObject.keys o) -> NoDup (JSObject.keys (JSObject.delete k o)).
Proof.
  induction o as [|[a b] o IH]; simpl; intros Hnd; [constructor|].
  apply NoDup_cons_iff in Hnd. destruct Hnd as [Hnotin Hnd].
  destruct (Nat.eqb k a); [auto|]. simpl. constructor; [|auto].
  intros Hin. apply Hnotin. unfold JSObject.keys in *.
  apply in_map_iff in Hin. destruct Hin as [[x y] [E Hin]]. simpl in E. subst.
  apply In_delete in Hin. apply in_map_iff. exists (a, y). split; [reflexivity | tauto].
Qed.

Lemma length_delete_present {V} (o : list (nat * V)) k :
  NoDup (JSObject.keys o) ->
  JSObject.hasOwnProperty k o = true ->
  S (List.length (JSObject.delete k o)) = List.length o.
Proof.
  induction o as [|[a b] o IH]; simpl; intros Hnd Hown; [discriminate|].
  apply NoDup_cons_iff in Hnd. destruct Hnd as [Hnotin Hnd].
  destruct (Nat.eqb_spec k a) as [->|Hne].
  - rewrite (delete_notin _ _ Hnotin). reflexivity.
  - simpl. f_equal. apply IH; assumption.
Qed.

Lemma closures_count env ids :
  canClose env = true ->
  NoDup ids ->
  forall w,
    NoDup (JSObject.keys (_notifications w)) ->
    (forall i, In i ids -> lookup i w <> JUndefined) ->
    List.length
      (_notifications (run (map (fun i => (env, OpHandleClose (Wrapper i))) ids) w))
    + List.length ids
    = List.length (_notifications w).
Proof.
  intros Hcan. induction 1 as [|i ids Hnotin Hnd IH]; intros w Hkeys Hlive.
  - simpl. lia.
  - simpl map.
    change (run ((env, OpHandleClose (Wrapper i)) :: ?l) w)
      with (run (map (fun i => (env, OpHandleClose (Wrapper i))) ids)
                (step env (OpHandleClose (Wrapper i)) w)).
    assert (Hi : lookup i w <> JUndefined) by (apply Hlive; left; reflexivity).
    destruct (_closeNotification_true env i w Hi Hcan) as [w1 H1].
    destruct (_closeNotification_deletes env i w Hi) as [Hreg _].
    rewrite H1 in Hreg. simpl in Hreg.
    assert (Hstep : step env (OpHandleClose (Wrapper i)) w = w1).
    { unfold step, uncaught, wrapperClose, bind. rewrite H1. reflexivity. }
    rewrite Hstep.
    assert (Hk1 : NoDup (JSObject.keys (_notifications w1)))
      by (rewrite Hreg; apply NoDup_keys_delete, Hkeys).
    assert (Hl1 : forall j, In j ids -> lookup j w1 <> JUndefined).
    { intros j Hj. unfold lookup. rewrite Hreg.
      rewrite get_delete_other by (intros ->; contradiction).
      apply (Hlive j). right. exact Hj. }
    specialize (IH w1 Hk1 Hl1).
    pose proof (length_delete_present _ i Hkeys (lookup_present _ _ Hi)) as Hlen.
    rewrite <- Hreg in Hlen. simpl. lia.
Qed.

Lemma creations_values ops :
  Forall recordCreation ops ->
  forall w,
    JSObject.below (_currentId w) (_notifications w) ->
    Forall (fun kv => snd kv <> JUndefined) (_notifications w) ->
    Forall (fun kv => snd kv <> JUndefined) (_notifications (run ops w)).
Proof.
  induction 1 as [|[env op] ops [t [o [Hop [Hperm Hserve]]]] _ IH]; intros w Hb Hall.
  - exact Hall.
  - simpl in Hop, Hperm, Hserve. subst op.
    change (run ((env, OpCreate (TitleString t) o) :: ops) w)
      with (run ops (step env (OpCreate (TitleString t) o) w)).
    destruct (create_record_view env t o w Hperm Hserve) as [n Hview].
    set (w1 := step env (OpCreate (TitleString t) o) w) in *.
    unfold viewOf in Hview. inversion Hview as [[Hc Hr Hi]]. clear Hview.
    apply IH.
    + rewrite Hc, Hr. apply below_set, Hb.
    + rewrite Hr, (set_below _ _ _ Hb). apply Forall_app. split; [exact Hall|].
      constructor; [discriminate | constructor].
Qed.

(** X17. [count()] is the number of open notifications: after N creations
    served with a record it returns N, and after the handles of M
    different ones among them have been closed, with a closing agent
    supported, it returns N - M. *)
Theorem count_after_creations_and_closures
    (ops : list (Env * Op)) (env : Env) (ids : list nat) :
  Forall recordCreation ops ->
  canClose env = true ->
  NoDup ids ->
  (forall i, In i ids -> i < List.length ops) ->
  let w := run ops newPush in
  let w' := run (map (fun i => (env, OpHandleClose (Wrapper i))) ids) w in
  returned (count w) = Some (List.length ops)
  /\ returned (count w') = Some (List.length ops - List.length ids).
Proof.
  intros Hops Hcan Hnd Hin w w'.
  destruct (creations_view ops Hops newPush) as [_ [_ Hk]]; [constructor|].
  fold w in Hk. simpl in Hk.
  assert (Hlen : List.length (_notifications w) = List.length ops).
  { rewrite <- (length_map fst). fold (JSObject.keys (_notifications w)).
    rewrite Hk. apply length_seq. }
  assert (Hkeys : NoDup (JSObject.keys (_notifications w)))
    by (rewrite Hk; apply seq_NoDup).
  pose proof (creations_values ops Hops newPush) as Hvals.
  fold w in Hvals.
  assert (Hall : Forall (fun kv => snd kv <> JUndefined) (_notifications w))
    by (apply Hvals; constructor).
  assert (Hlive : forall i, In i ids -> lookup i w <> JUndefined).
  { intros i Hi. specialize (Hin i Hi).
    assert (Hik : In i (JSObject.keys (_notifications w)))
      by (rewrite Hk; apply in_seq; lia).
    unfold JSObject.keys in Hik. apply in_map_iff in Hik.
    destruct Hik as [[k v] [E Hkv]]. simpl in E. subst k.
    unfold lookup. rewrite (get_entry _ i v Hkeys Hkv).
    rewrite Forall_forall in Hall. exact (Hall _ Hkv). }
  pose proof (closures_count env ids Hcan Hnd w Hkeys Hlive) as Hc.
  fold w' in Hc.
  split; [simpl; rewrite Hlen; reflexivity|].
  simpl. f_equal. lia.
Qed.

Lemma count_after_creations_and_closures_witness :
  let ops := [ (desktopWindow (record 10 "a"), OpCreate (TitleString "x") None);
               (desktopWindow (record 11 "b"), OpCreate (TitleString "y") None);
               (desktopWindow (record 12 "a"), OpCreate (TitleString "z") None) ] in
  let env := desktopWindow JNull in
  let w := run ops newPush in
  Forall recordCreation ops
  /\ NoDup [2; 0]
  /\ returned (count w) = Some 3
  /\ returned (count (run [(env, OpHandleClose (Wrapper 2));
                           (env, OpHandleClose (Wrapper 0))] w)) = Some 1.
Proof.
  intros ops env w.
  assert (Hops : Forall recordCreation ops).
  { repeat constructor; eexists; eexists;
      (split; [reflexivity|]); (split; [reflexivity|]);
      intros p w0; eexists; reflexivity. }
  assert (Hnd : NoDup [2; 0]).
  { repeat constructor; simpl; intuition discriminate. }
  assert (Hin : forall i, In i [2; 0] -> i < List.length ops).
  { intros i [<-|[<-|[]]]; simpl; lia. }
  destruct (count_after_creations_and_closures ops env [2; 0] Hops eq_refl Hnd Hin)
    as [H1 H2].
  split; [exact Hops|]. split; [exact Hnd|]. split; [exact H1 | exact H2].
Defined.

(** ** Failures of the agents *)

(** Where the promise callback leaves the counter, the registry and the
    handles, by what the agent selection yields. *)
Lemma executor_view env t o p w :
  viewOf (final (executor env t o p w))
  = match dispatch env t (optionsOr o) p w with
    | Ok (JObj n) _ =>
        (S (_currentId w),
         JSObject.set (_currentId w) (JObj n) (_notifications w),
         wrapperIds (log w) ++ [_currentId w])
    | Ok JUndefined _ =>
        (S (_currentId w),
         JSObject.set (_currentId w) JUndefined (_notifications w),
         wrapperIds (log w))
    | _ => viewOf w
    end.
Proof.
  unfold executor, _createCallback, try_catch. fold (optionsOr o). unfold bind.
  pose proof (dispatch_view env t (optionsOr o) p w) as Hv.
  destruct (dispatch env t (optionsOr o) p w) as [v wd|e wd]; simpl in Hv.
  - pose proof (deliver_view v (optionsOr o) p wd) as Hd.
    assert (Hwd : _currentId wd = _currentId w
                  /\ _notifications wd = _notifications w
                  /\ wrapperIds (log wd) = wrapperIds (log w))
      by (unfold viewOf in Hv; inversion Hv; auto).
    destruct Hwd as [Hc [Hr Hi]].
    destruct (deliver v (optionsOr o) p wd) as [u w2|e w2]; simpl in Hd |- *.
    + rewrite Hd. destruct v; rewrite ?Hc, ?Hr, ?Hi; auto.
    + unfold reject, emit, modify. simpl.
      assert (Hsame : viewOf (set_log (log w2 ++ [EvReject p e]) w2) = viewOf w2).
      { unfold viewOf. simpl. rewrite wrapperIds_app. simpl.
        rewrite app_nil_r. reflexivity. }
      rewrite Hsame, Hd. destruct v; rewrite ?Hc, ?Hr, ?Hi; auto.
  - unfold reject, emit, modify. simpl.
    unfold viewOf in *. simpl. rewrite wrapperIds_app. simpl.
    rewrite app_nil_r. exact Hv.
Qed.

(** X18. An agent that throws. When the desktop agent's [create] throws, the
    error is swallowed: the future is resolved with the empty handle and
    nothing is registered. When the desktop agent is unsupported and the
    first supported agent among WebKit, Firefox-mobile and IE throws, the
    future is rejected with that very error and nothing is registered. *)
Theorem agent_failure_propagates_except_desktop
    (env : Env) (t : string) (o : option Options) (e : Thrown) (w : World) :
  permissionHas env = true ->
  promiseState (nextPromise w) w = Pending ->
  let p := nextPromise w in
  let w' := final (create env (TitleString t) o w) in
  (isSupported env Desktop = true ->
   agentCreate env Desktop t (optionsOr o) = Throws e ->
   promiseState p w' = Resolved EmptyHandle /\ viewOf w' = viewOf w)
  /\ (isSupported env Desktop = false ->
      forall a,
        firstSupported (isSupported env) [WebKit; Firefox; MS] = Some a ->
        agentCreate env a t (optionsOr o) = Throws e ->
        promiseState p w' = Rejected e /\ viewOf w' = viewOf w).
Proof.
  intros Hperm Hfresh p w'. subst w'.
  rewrite (create_granted env t o w Hperm), final_bind_const. fold p.
  set (w1 := set_nextPromise _ _).
  assert (Hp1 : promiseState p w1 = Pending).
  { destruct (promise_after p w w1 [EvPermissionHas] Pending 0) as [H _];
      [reflexivity | exact Hfresh | reflexivity | exact H]. }
  assert (Hv1 : viewOf w1 = viewOf w).
  { unfold viewOf, w1. simpl. rewrite wrapperIds_app. simpl.
    rewrite app_nil_r. reflexivity. }
  destruct (executor_settles env t o p w1 Hp1) as [_ [_ Hstate]].
  pose proof (executor_view env t o p w1) as Hview.
  fold (optionsOr o) in Hstate.
  split.
  - intros Hd He.
    assert (Hdisp : returned (dispatch env t (optionsOr o) p w1) = Some JNull)
      by (apply (dispatch_desktop_throws env t (optionsOr o) p w1 e Hd He)).
    destruct (dispatch env t (optionsOr o) p w1) as [v wd|e' wd];
      simpl in Hdisp; [|discriminate].
    inversion Hdisp; subst v. rewrite Hstate, Hview. auto.
  - intros Hd a Ha He.
    assert (Hdisp : thrown (dispatch env t (optionsOr o) p w1) = Some e).
    { unfold firstSupported in Ha. simpl in Ha.
      unfold dispatch. js_unfold. simpl. rewrite Hd.
      destruct (isSupported env WebKit); simpl.
      { inversion Ha; subst a. rewrite He. reflexivity. }
      destruct (isSupported env Firefox); simpl.
      { inversion Ha; subst a. rewrite He. reflexivity. }
      destruct (isSupported env MS); simpl; [|discriminate].
      inversion Ha; subst a. rewrite He. reflexivity. }
    destruct (dispatch env t (optionsOr o) p w1) as [v wd|e' wd];
      simpl in Hdisp; [discriminate|].
    inversion Hdisp; subst e'. rewrite Hstate, Hview. auto.
Qed.

Lemma agent_failure_propagates_except_desktop_witness :
  let boom := ErrorObj "createNotification failed" in
  let desktop := window (only Desktop) (fun _ => Throws boom) in
  let webkit := window (only WebKit) (fun _ => Throws boom) in
  permissionHas desktop = true
  /\ promiseState (nextPromise newPush) newPush = Pending
  /\ promiseState 0 (final (create desktop (TitleString "x") None newPush))
     = Resolved EmptyHandle
  /\ promiseState 0 (final (create webkit (TitleString "x") None newPush))
     = Rejected boom.
Proof.
  intros boom desktop webkit.
  destruct (agent_failure_propagates_except_desktop desktop "x" None boom newPush
              eq_refl eq_refl) as [Hd _].
  destruct (agent_failure_propagates_except_desktop webkit "x" None boom newPush
              eq_refl eq_refl) as [_ Hw].
  split; [reflexivity|]. split; [reflexivity|].
  split; [exact (proj1 (Hd eq_refl eq_refl))|].
  exact (proj1 (Hw eq_refl WebKit eq_refl eq_refl)).
Defined.
